(** * Five standard-library snippets of the notebook, embedded and verified

    The notebook "5 Python Built-in Functions and Modules That Save Time"
    has five independent code cells: shelve, functools.partial,
    itertools.batched with a thread-pool benchmark, functools.singledispatch
    and contextlib.closing.  Each cell is embedded below in a module of its
    own; the vocabulary of the statements and the theorems follow the
    modules.

    Conventions of the embedding:
    - a Python [int] is a [Z], a [str] a [string], a [list] a [list];
    - a call that may raise returns a [result];
    - a dict is a [gmap];
    - what a cell prints and what its except clauses catch is kept on a
      trace of events;
    - the library primitives the cells call ([shelve], [partial],
      [batched], [ThreadPoolExecutor], [singledispatch], [closing]) are
      embedded from the library code (CPython 3.11, the version of the
      notebook's kernel); what lies beyond them ([pickle], the HTTP
      server, [str.upper], the database engine) is an interface or an
      argument of the cell. *)

From Stdlib Require Import ZArith QArith Ascii String List Lia.
From stdpp Require Import base gmap strings list.

Import ListNotations.
Local Open Scope string_scope.
Local Open Scope list_scope.
Local Open Scope Z_scope.
Set Warnings "-register-all".

(* ===================================================================== *)
(** * Runtime: values, exceptions, results, the event trace              *)
(* ===================================================================== *)

Module Py.

(** The key a KeyError reports: a str, or the bytes a str was encoded to. *)
Inductive pykey : Type :=
| StrKey (s : string)
| BytesKey (b : string).

(** The built-in exception classes the cells can meet. *)
Inductive exn : Type :=
| NotImplementedError (msg : string)
| ValueError (msg : string)
| ImportError (msg : string)
| ModuleNotFoundError (msg : string)
| TypeError (msg : string)
| RuntimeError (msg : string)
| KeyError (key : pykey)
| AttributeError (msg : string)
| PicklingError (msg : string)
| ConnectionError (msg : string)
| DatabaseError (msg : string).

(** [str(err)] of an exception built from one message. *)
Definition exn_str (e : exn) : string :=
  match e with
  | NotImplementedError m | ValueError m | ImportError m
  | ModuleNotFoundError m | TypeError m | RuntimeError m
  | AttributeError m | PicklingError m | ConnectionError m
  | DatabaseError m => m
  | KeyError (StrKey k) => ("'" ++ k ++ "'")%string
  | KeyError (BytesKey k) => ("b'" ++ k ++ "'")%string
  end.

Inductive result (A : Type) : Type :=
| Ok (a : A)
| Raise (e : exn).
Arguments Ok {A} a.
Arguments Raise {A} e.

(** Python values of the built-in types used by the cells. *)
Inductive value : Type :=
| VNone
| VBool (b : bool)
| VInt (z : Z)
| VStr (s : string)
| VList (items : list value)
| VTuple (items : list value)
| VDict (items : list (string * value)).

(** What a run leaves behind: what it printed and, as a ghost record,
    which exceptions an [except] clause caught. *)
Inductive event : Type :=
| Printed (v : value)
| Caught (e : exn).

(** Sequencing of calls that may raise. *)
Definition rbind {A B} (r : result A) (k : A -> result B) : result B :=
  match r with
  | Ok a => k a
  | Raise e => Raise e
  end.

(** A statement of a cell: it runs on the cell's own state [S] and on the
    trace so far, and gives an outcome with the state and trace after. *)
Definition M (S A : Type) : Type := S * list event -> result A * (S * list event).

Definition ret {S A} (a : A) : M S A := fun w => (Ok a, w).
Definition raise {S A} (e : exn) : M S A := fun w => (Raise e, w).
Definition bind {S A B} (m : M S A) (k : A -> M S B) : M S B :=
  fun w => match m w with
           | (Ok a, w') => k a w'
           | (Raise e, w') => (Raise e, w')
           end.
(** A call that works on the cell's state alone. *)
Definition on_state {S A} (f : S -> result A * S) : M S A :=
  fun w => let '(r, s') := f (fst w) in (r, (s', snd w)).

(** [print(v)] *)
Definition print {S} (v : value) : M S unit :=
  fun w => (Ok tt, (fst w, snd w ++ [Printed v])).

(** [try: body / except <class> as err: handler err]; [catches] decides
    membership in the class of the clause. *)
Definition try_except {S A} (body : M S A) (catches : exn -> bool)
    (handler : exn -> M S A) : M S A :=
  fun w => match body w with
           | (Ok a, w') => (Ok a, w')
           | (Raise e, w') =>
               if catches e then handler e (fst w', snd w' ++ [Caught e])
               else (Raise e, w')
           end.

Definition printed (tr : list event) : list value :=
  omap (fun ev => match ev with Printed v => Some v | Caught _ => None end) tr.


End Py.

Notation "'let*' x ':=' m 'in' k" := (Py.bind m (fun x => k))
  (at level 10, x pattern, m at level 100, k at level 200).
Notation "'let?' x ':=' r 'in' k" := (Py.rbind r (fun x => k))
  (at level 10, x pattern, r at level 100, k at level 200).

(* ===================================================================== *)
(** * Cell 1: shelve                                                     *)
(* ===================================================================== *)

Module Shelve.
Import Py.

(** pickle, which shelve uses to turn a value into the bytes it stores. *)
Class Pickle (V bytes : Type) : Type := {
  dumps : V -> result bytes;
  loads : bytes -> result V
}.

(** What pickle promises of a value it accepted. *)
Class PickleInverse (V bytes : Type) `{Pickle V bytes} : Prop :=
  loads_dumps : forall (v : V) (b : bytes), dumps v = Ok b -> loads b = Ok v.

Section shelf.
Context {V bytes : Type} `{Pickle V bytes}.

(** The disk: the dbm file of each name, as the dict it holds. *)
Record shelf : Type := mk_shelf {
  sh_filename : string;
  sh_dict : gmap string bytes
}.

(** shelve.open(filename): flag 'c', the file is created when missing. *)
Definition shelve_open (disk : gmap string (gmap string bytes))
    (filename : string) : shelf * gmap string (gmap string bytes) :=
  let contents := default ∅ (disk !! filename) in
  (mk_shelf filename contents, <[filename := contents]> disk).

(** db[key] = value *)
Definition setitem (key : string) (v : V) (db : shelf)
    : result unit * shelf :=
  match dumps v with
  | Ok b => (Ok tt, mk_shelf (sh_filename db) (<[key := b]> (sh_dict db)))
  | Raise e => (Raise e, db)
  end.

(** db[key]: the dbm dict is asked for key.encode("utf-8"), and when it
    does not hold it, its KeyError reports the encoded key. *)
Definition getitem (key : string) (db : shelf) : result V * shelf :=
  match sh_dict db !! key with
  | Some b => (loads b, db)
  | None => (Raise (KeyError (BytesKey key)), db)
  end.

(** db.close(): what the dict holds is on disk from here on. *)
Definition close (disk : gmap string (gmap string bytes)) (db : shelf)
    : gmap string (gmap string bytes) :=
  <[sh_filename db := sh_dict db]> disk.

(** with shelve.open(filename) as db: body
    The shelf is closed when the block is left, also by an exception. *)
Definition with_open {A} (filename : string)
    (body : shelf -> result A * shelf)
    (disk : gmap string (gmap string bytes))
    : result A * gmap string (gmap string bytes) :=
  let '(db, disk1) := shelve_open disk filename in
  let '(r, db') := body db in
  (r, close disk1 db').

(** with shelve.open('myTest.db') as db: db['example_response'] = response *)
Definition store_response (response : V)
    (disk : gmap string (gmap string bytes))
    : result unit * gmap string (gmap string bytes) :=
  with_open "myTest.db" (setitem "example_response" response) disk.

(** with shelve.open('myTest.db') as db:
        stored_response = db['example_response'] *)
Definition load_response (disk : gmap string (gmap string bytes))
    : result V * gmap string (gmap string bytes) :=
  with_open "myTest.db" (getitem "example_response") disk.

(** The cell after [response = requests.get(...)]: the outcome is
    [stored_response]. *)
Definition cell (response : V) (disk : gmap string (gmap string bytes))
    : result V * gmap string (gmap string bytes) :=
  match store_response response disk with
  | (Ok _, disk1) => load_response disk1
  | (Raise e, disk1) => (Raise e, disk1)
  end.

End shelf.
Arguments shelf : clear implicits.

End Shelve.

(* ===================================================================== *)
(** * Cell 2: functools.partial                                          *)
(* ===================================================================== *)

Module Partial.
Import Py.

(** ** partial *)

(** A partial object over a callable taking positional and keyword
    arguments. *)
Record partial_obj (R : Type) : Type := mk_partial {
  func : list value -> gmap string value -> R;
  args : list value;
  keywords : gmap string value
}.
Arguments mk_partial {R}.
Arguments func {R}.
Arguments args {R}.
Arguments keywords {R}.

(** partial(func, /, *args, **keywords) *)
Definition partial {R} (f : list value -> gmap string value -> R)
    (a : list value) (kw : gmap string value) : partial_obj R :=
  mk_partial f a kw.

(** partial.__call__: the bound positional arguments come first, and a
    keyword given at the call wins over the bound one:
    self.func( *self.args, *args, **{**self.keywords, **keywords} ) *)
Definition call {R} (p : partial_obj R) (a : list value)
    (kw : gmap string value) : R :=
  func p (args p ++ a) (kw ∪ keywords p).

(** ** Session.post *)

(** One call of [session.post], as the session received it. *)
Record request : Type := mk_request {
  rq_method : string;
  rq_url : value;
  rq_data : option value;
  rq_json : option value;
  rq_kwargs : gmap string value
}.

(** A parameter given by position, by keyword, or not at all. *)
Definition bind_param (name : string) (positional : option value)
    (kw : gmap string value) : result (option value) :=
  match positional, kw !! name with
  | Some _, Some _ =>
      Raise (TypeError ("post() got multiple values for argument '"
                        ++ name ++ "'")%string)
  | Some v, None => Ok (Some v)
  | None, given => Ok given
  end.

(** def post(self, url, data=None, json=None, **kwargs):
        return self.request("POST", url, data=data, json=json, **kwargs)
    The state is the list of the calls the session has issued; [server]
    is the far end, which answers or fails. *)
Definition session_post (server : request -> result value)
    (a : list value) (kw : gmap string value)
    : list request -> result value * list request :=
  fun calls =>
    let bound :=
      if (3 <? length a)%nat
      then Raise (TypeError
             "post() takes from 2 to 4 positional arguments")
      else
        let? url := bind_param "url" (a !! 0%nat) kw in
        let? data := bind_param "data" (a !! 1%nat) kw in
        let? json := bind_param "json" (a !! 2%nat) kw in
        match url with
        | None => Raise (TypeError
            "post() missing 1 required positional argument: 'url'")
        | Some u =>
            Ok (mk_request "POST" u data json
                  (delete "url" (delete "data" (delete "json" kw))))
        end in
    match bound with
    | Ok rq => (server rq, calls ++ [rq])
    | Raise e => (Raise e, calls)
    end.

(** ** The cell *)

Definition graphql_url : string := "https://countries.trevorblades.com/".

(** post = partial(session.post, url=graphql_url) *)
Definition post (server : request -> result value)
    : partial_obj (list request -> result value * list request) :=
  partial (session_post server) [] {["url" := VStr graphql_url]}.

(** post(json=payload) *)
Definition post_json (server : request -> result value) (payload : value)
    : list request -> result value * list request :=
  call (post server) [] {["json" := payload]}.

(** {"query": body} *)
Definition query (body : string) : value := VDict [("query", VStr body)].

Definition newline : string := String "010"%char EmptyString.
Definition dquote : string := String "034"%char EmptyString.

Definition lines (ls : list string) : string :=
  String.concat "" (List.map (fun l => (l ++ newline)%string) ls).

Definition body_continents : string :=
  lines [""; "query {"; "    continents{"; "        name"; "    }"; "}"].

Definition body_country : string :=
  lines [""; "query {";
         ("  country (code: " ++ dquote ++ "PL" ++ dquote ++ ") {")%string;
         "    name,"; "    awsRegion"; "  }"; "}"].

(** The two calls of the cell, with what each [resp.json()] is printed
    from; an exception of the first call ends the cell. *)
Definition cell (server : request -> result value)
    : list request -> result (value * value) * list request :=
  fun calls =>
    match post_json server (query body_continents) calls with
    | (Raise e, calls1) => (Raise e, calls1)
    | (Ok resp1, calls1) =>
        match post_json server (query body_country) calls1 with
        | (Raise e, calls2) => (Raise e, calls2)
        | (Ok resp2, calls2) => (Ok (resp1, resp2), calls2)
        end
    end.

End Partial.

(* ===================================================================== *)
(** * Cell 3: itertools.batched and the thread-pool benchmark            *)
(* ===================================================================== *)

Module Batched.
Import Py.

(** ** The import with its fallback *)







(** ** The constants of the cell *)

(** [l * n] on lists *)
Definition list_mul {A} (l : list A) (n : Z) : list A :=
  concat (repeat l (Z.to_nat n)).

Definition DATA : list Z := list_mul [1] 20000.
Definition MAX_WORKERS : Z := 50.
Definition BATCH_SIZE : Z := 400.
(** seconds *)
Definition SLEEP_TIME : Q := 1 # 1000.
Definition TIMEIT_REPEAT : Z := 10.

(** ** batched(iterable, n)

    if n < 1: raise ValueError('n must be at least one')
    iterator = iter(iterable)
    while batch := tuple(islice(iterator, n)):
        yield batch

    The iterator is the list of the items not yet consumed; the loop runs at
    most once per item, so [length l] rounds are enough.  The batch size is
    taken in the range of a machine index (n <= sys.maxsize), as islice
    wants it; beyond that the library refuses the argument. *)
Fixpoint batched_loop {A} (rounds : nat) (it : list A) (n : nat)
    : list (list A) :=
  match rounds with
  | O => []
  | S rounds' =>
      match take n it with
      | [] => []
      | batch => batch :: batched_loop rounds' (drop n it) n
      end
  end.

Definition batched {A} (iterable : list A) (n : Z) : result (list (list A)) :=
  if n <? 1 then Raise (ValueError "n must be at least one")
  else Ok (batched_loop (length iterable) iterable (Z.to_nat n)).

(** ** The simulated work *)

(** The effect of a task is the list of the delays it asked [sleep] for. *)
Definition sleeps : Type := list Q.

(** def simulate_io_operation(...): sleep(SLEEP_TIME)
    (any arguments, all ignored) *)
Definition simulate_io_operation {A} (_ : A) (log : sleeps) : sleeps :=
  log ++ [SLEEP_TIME].

(** def process_data(item): simulate_io_operation(item) *)
Definition process_data {A} (item : A) (log : sleeps) : sleeps :=
  simulate_io_operation item log.

(** def process_data_in_batch(items):
        for item in items: simulate_io_operation(item) *)
Definition process_data_in_batch {A} (items : list A) (log : sleeps) : sleeps :=
  fold_left (fun log item => simulate_io_operation item log) items log.

(** ** concurrent.futures.ThreadPoolExecutor

    The pool as the library (CPython 3.11, concurrent/futures/thread.py)
    implements it: [submit] puts a work item on an unbounded FIFO queue and
    starts a worker thread unless the idle semaphore can be taken or
    [max_workers] threads exist; each worker loops on
    [work_queue.get(block=True)], runs the item it got and releases the
    idle semaphore; [shutdown] sets the flag and puts the sentinel [None]
    on the queue; a worker that gets the sentinel after shutdown puts it
    back for the others and returns; the exit of the [with] block is
    [shutdown(wait=True)], which joins every worker thread. *)

(** Where a worker thread is in its loop. *)
Inductive wstate (T : Type) : Type :=
| WWaiting                 (* in work_queue.get(block=True) *)
| WRunning (t : T)         (* inside work_item.run() *)
| WExited.                 (* returned *)
Arguments WWaiting {T}.
Arguments WRunning {T} t.
Arguments WExited {T}.

Record executor (T : Type) : Type := mk_executor {
  max_workers : Z;
  workers : list (wstate T);           (* self._threads *)
  idle_semaphore : nat;                (* self._idle_semaphore *)
  work_queue : list (option T);        (* self._work_queue *)
  finished : list T;                   (* items whose run() has returned *)
  shutdown_flag : bool                 (* self._shutdown *)
}.
Arguments mk_executor {T}.
Arguments max_workers {T}.
Arguments workers {T}.
Arguments idle_semaphore {T}.
Arguments work_queue {T}.
Arguments finished {T}.
Arguments shutdown_flag {T}.

(** ThreadPoolExecutor(max_workers=n) *)
Definition new_executor {T} (n : Z) : result (executor T) :=
  if n <=? 0 then Raise (ValueError "max_workers must be greater than 0")
  else Ok (mk_executor n [] 0%nat [] [] false).

(** _adjust_thread_count *)
Definition adjust_thread_count {T} (ex : executor T) : executor T :=
  match idle_semaphore ex with
  | S k =>
      mk_executor (max_workers ex) (workers ex) k (work_queue ex)
        (finished ex) (shutdown_flag ex)
  | O =>
      if Z.of_nat (length (workers ex)) <? max_workers ex
      then mk_executor (max_workers ex) (workers ex ++ [WWaiting]) O
             (work_queue ex) (finished ex) (shutdown_flag ex)
      else ex
  end.

(** submit: never waits; it raises once the pool is shut down. *)
Definition submit {T} (ex : executor T) (t : T) : result (executor T) :=
  if shutdown_flag ex
  then Raise (RuntimeError "cannot schedule new futures after shutdown")
  else Ok (adjust_thread_count
             (mk_executor (max_workers ex) (workers ex) (idle_semaphore ex)
                (work_queue ex ++ [Some t]) (finished ex) false)).

(** shutdown: the flag and the sentinel; the join is [joined] below. *)
Definition shutdown {T} (ex : executor T) : executor T :=
  mk_executor (max_workers ex) (workers ex) (idle_semaphore ex)
    (work_queue ex ++ [None]) (finished ex) true.

(** Worker [i] has taken [item] off the queue, [q] is what is left. *)
Definition got_item {T} (ex : executor T) (i : nat) (item : option T)
    (q : list (option T)) : executor T :=
  match item with
  | Some t =>
      mk_executor (max_workers ex) (<[i := WRunning t]> (workers ex))
        (idle_semaphore ex) q (finished ex) (shutdown_flag ex)
  | None =>
      if shutdown_flag ex
      then mk_executor (max_workers ex) (<[i := WExited]> (workers ex))
             (idle_semaphore ex) (q ++ [None]) (finished ex) true
      else mk_executor (max_workers ex) (<[i := WWaiting]> (workers ex))
             (idle_semaphore ex) q (finished ex) false
  end.

(** One step of worker [i]: it gets the head of the queue, or its work
    item returns and it releases the idle semaphore; [None] when it cannot
    move (blocked in get() on an empty queue, returned, or no such
    thread). *)
Definition worker_step {T} (ex : executor T) (i : nat)
    : option (executor T) :=
  match workers ex !! i with
  | None | Some WExited => None
  | Some (WRunning t) =>
      Some (mk_executor (max_workers ex) (<[i := WWaiting]> (workers ex))
              (S (idle_semaphore ex)) (work_queue ex) (finished ex ++ [t])
              (shutdown_flag ex))
  | Some WWaiting =>
      match work_queue ex with
      | [] => None
      | item :: q => Some (got_item ex i item q)
      end
  end.

(** The interleavings: steps of the main thread and of the workers. *)
Inductive action (T : Type) : Type :=
| MainSubmit (t : T)
| MainShutdown
| Worker (i : nat).
Arguments MainSubmit {T} t.
Arguments MainShutdown {T}.
Arguments Worker {T} i.

Definition do_action {T} (ex : executor T) (a : action T)
    : option (executor T) :=
  match a with
  | MainSubmit t =>
      match submit ex t with Ok ex' => Some ex' | Raise _ => None end
  | MainShutdown => Some (shutdown ex)
  | Worker i => worker_step ex i
  end.

Fixpoint run {T} (acts : list (action T)) (ex : executor T)
    : option (executor T) :=
  match acts with
  | [] => Some ex
  | a :: acts' =>
      match do_action ex a with
      | Some ex' => run acts' ex'
      | None => None
      end
  end.

(** The tasks the main thread has submitted along a schedule. *)
Definition submitted {T} (acts : list (action T)) : list T :=
  omap (fun a => match a with MainSubmit t => Some t | _ => None end) acts.

(** What the main thread does along a schedule. *)
Definition main_actions {T} (acts : list (action T)) : list (action T) :=
  List.filter (fun a => match a with Worker _ => false | _ => true end) acts.

(** shutdown(wait=True) returns: every worker thread has been joined. *)
Definition joined {T} (ex : executor T) : Prop :=
  shutdown_flag ex = true /\ Forall (fun w => w = WExited) (workers ex).

(** Every worker thread is inside a work item. *)
Definition all_busy {T} (ex : executor T) : Prop :=
  Forall (fun w => exists t, w = WRunning t) (workers ex).

Definition running {T} (ex : executor T) : list T :=
  omap (fun w => match w with WRunning t => Some t | _ => None end)
    (workers ex).

(** ** The two benchmark functions

    with ThreadPoolExecutor(max_workers=MAX_WORKERS) as executor:
        results = executor.map(fn, iterable)

    [Executor.map] submits one work item per element, all of them before it
    returns; leaving the block shuts the pool down and waits. *)
Definition executor_map {T} (iterable : list T) : list (action T) :=
  map MainSubmit iterable.

Definition with_executor {T} (body : list (action T)) : list (action T) :=
  body ++ [MainShutdown].

(** def test_single(): ... executor.map(process_data, DATA) *)
Definition test_single : list (action Z) :=
  with_executor (executor_map DATA).

(** def test_batch(): ...
      executor.map(process_data_in_batch, batched(DATA, BATCH_SIZE)) *)
Definition test_batch : result (list (action (list Z))) :=
  match batched DATA BATCH_SIZE with
  | Ok chunks => Ok (with_executor (executor_map chunks))
  | Raise e => Raise e
  end.

(** A complete run of a benchmark function: a schedule whose main-thread
    part is the function's, from a fresh pool to the return of the join. *)
Definition complete_run {T} (program : list (action T))
    (acts : list (action T)) (ex : executor T) : Prop :=
  main_actions acts = program /\
  (exists ex0, new_executor MAX_WORKERS = Ok ex0 /\ run acts ex0 = Some ex) /\
  joined ex.

(** The delays a task asks for: what the function given to [map] does on
    the task's argument. *)
Definition single_task_sleeps (item : Z) : sleeps := process_data item [].
Definition batch_task_sleeps (chunk : list Z) : sleeps :=
  process_data_in_batch chunk [].

End Batched.

(* ===================================================================== *)
(** * Cell 4: functools.singledispatch                                   *)
(* ===================================================================== *)

Module SingleDispatch.
Import Py.

(** ** Classes *)

(** The classes of the values of [Py.value], with [object]. *)
Inductive pytype : Type :=
| TObject | TNoneType | TBool | TInt | TStr | TList | TTuple | TDict.

Global Instance pytype_eq_dec : EqDecision pytype.
Proof. solve_decision. Defined.

Definition pytype_to_nat (t : pytype) : nat :=
  match t with
  | TObject => 0 | TNoneType => 1 | TBool => 2 | TInt => 3
  | TStr => 4 | TList => 5 | TTuple => 6 | TDict => 7
  end%nat.

Definition pytype_of_nat (n : nat) : pytype :=
  match n with
  | 0 => TObject | 1 => TNoneType | 2 => TBool | 3 => TInt
  | 4 => TStr | 5 => TList | 6 => TTuple | _ => TDict
  end%nat.

Global Instance pytype_countable : Countable pytype.
Proof.
  refine (inj_countable' pytype_to_nat pytype_of_nat _).
  intros []; reflexivity.
Defined.

(** value.__class__ *)
Definition type_of (v : value) : pytype :=
  match v with
  | VNone => TNoneType
  | VBool _ => TBool
  | VInt _ => TInt
  | VStr _ => TStr
  | VList _ => TList
  | VTuple _ => TTuple
  | VDict _ => TDict
  end.

(** cls.__mro__: [bool] derives from [int], every class from [object]. *)
Definition mro (cls : pytype) : list pytype :=
  match cls with
  | TObject => [TObject]
  | TBool => [TBool; TInt; TObject]
  | t => [t; TObject]
  end.

(** isinstance(v, cls) *)
Definition isinstance (v : value) (cls : pytype) : bool :=
  bool_decide (cls ∈ mro (type_of v)).

(** ** The operations the handlers use *)

(** str.upper, the library's case mapping. *)
Class StrOps : Type := { str_upper : string -> string }.

(** The integer a value of class [int] (or of its subclass [bool]) is. *)
Definition as_int (v : value) : option Z :=
  match v with
  | VInt z => Some z
  | VBool b => Some (Z.b2z b)
  | _ => None
  end.

(** a + b, for the operand classes of [Py.value] that define it. *)
Definition py_add (a b : value) : result value :=
  match as_int a, as_int b with
  | Some x, Some y => Ok (VInt (x + y))
  | _, _ =>
      match a, b with
      | VStr x, VStr y => Ok (VStr (x ++ y)%string)
      | VList x, VList y => Ok (VList (x ++ y))
      | VTuple x, VTuple y => Ok (VTuple (x ++ y))
      | _, _ => Raise (TypeError "unsupported operand type(s) for +")
      end
  end.

(** value.upper() *)
Definition method_upper `{StrOps} (v : value) : result value :=
  match v with
  | VStr s => Ok (VStr (str_upper s))
  | _ => Raise (AttributeError "object has no attribute 'upper'")
  end.

(** ** singledispatch *)

(** The generic function object: the registry and the dispatch cache. *)
Record generic : Type := mk_generic {
  registry : gmap pytype (value -> result value);
  dispatch_cache : gmap pytype (option (value -> result value))
}.

(** @singledispatch: registry[object] = func *)
Definition singledispatch (func : value -> result value) : generic :=
  mk_generic {[TObject := func]} ∅.

(** @generic.register, the class read from the annotation of the
    parameter: registry[cls] = func; dispatch_cache.clear() *)
Definition register (g : generic) (cls : pytype)
    (func : value -> result value) : generic :=
  mk_generic (<[cls := func]> (registry g)) ∅.

(** _find_impl: the first class of the MRO that has an entry, and
    registry.get of it, which is None when there is none.  (No abstract
    base class is registered, so the MRO the library composes is
    cls.__mro__ and no two candidates are ever ambiguous.) *)
Fixpoint find_match (reg : gmap pytype (value -> result value))
    (classes : list pytype) : option pytype :=
  match classes with
  | [] => None
  | t :: rest =>
      match reg !! t with
      | Some _ => Some t
      | None => find_match reg rest
      end
  end.

Definition find_impl (cls : pytype)
    (reg : gmap pytype (value -> result value))
    : option (value -> result value) :=
  match find_match reg (mro cls) with
  | Some t => reg !! t
  | None => None
  end.

(** dispatch(cls): the cache, else the registry, else the MRO; what was
    found is stored in the cache. *)
Definition dispatch (cls : pytype) (g : generic)
    : option (value -> result value) * generic :=
  match dispatch_cache g !! cls with
  | Some impl => (impl, g)
  | None =>
      let impl :=
        match registry g !! cls with
        | Some f => Some f
        | None => find_impl cls (registry g)
        end in
      (impl, mk_generic (registry g) (<[cls := impl]> (dispatch_cache g)))
  end.

(** wrapper(value): dispatch(value.__class__)(value) *)
Definition call (v : value) (g : generic) : result value * generic :=
  match dispatch (type_of v) g with
  | (Some impl, g') => (impl v, g')
  | (None, g') => (Raise (TypeError "'NoneType' object is not callable"), g')
  end.

(** ** The cell *)

(** def process(value): raise NotImplementedError("Unsupported type") *)
Definition process_default (value : value) : result Py.value :=
  Raise (NotImplementedError "Unsupported type").

(** def _(value: int): return value + 10 *)
Definition process_int (value : value) : result Py.value :=
  py_add value (VInt 10).

(** def _(value: str): return value.upper() *)
Definition process_str `{StrOps} (value : value) : result Py.value :=
  method_upper value.

(** The object [process] names once the three definitions have run. *)
Definition process `{StrOps} : generic :=
  register (register (singledispatch process_default) TInt process_int)
    TStr process_str.

(** process(v), as a statement of the cell *)
Definition call_process (v : value) : M generic value :=
  on_state (call v).

(** [except NotImplementedError] *)
Definition is_NotImplementedError (e : exn) : bool :=
  match e with
  | NotImplementedError _ => true
  | _ => false
  end.

(** The usage part of the cell:
    print(process(10)); print(process('hello'))
    try: process(['lama'])
    except NotImplementedError as err:
        print(f"NotImplementedError error caught: {err}") *)
Definition try_process (v : value) : M generic unit :=
  try_except
    (let* _ := call_process v in ret tt)
    is_NotImplementedError
    (fun err =>
       print (VStr ("NotImplementedError error caught: " ++ exn_str err)%string)).

Definition usage : M generic unit :=
  let* r1 := call_process (VInt 10) in
  let* _ := print r1 in
  let* r2 := call_process (VStr "hello") in
  let* _ := print r2 in
  try_process (VList [VStr "lama"]).

(** The whole cell, from the definitions on. *)
Definition cell `{StrOps} : result unit * (generic * list event) :=
  usage (process, []).

(** str.upper on the letters a to z; every other character is kept. *)
Definition ascii_upper_char (c : ascii) : ascii :=
  let n := nat_of_ascii c in
  if ((97 <=? n) && (n <=? 122))%nat then ascii_of_nat (n - 32) else c.

Fixpoint ascii_upper (s : string) : string :=
  match s with
  | EmptyString => EmptyString
  | String c rest => String (ascii_upper_char c) (ascii_upper rest)
  end.

Definition ascii_ops : StrOps := {| str_upper := ascii_upper |}.

End SingleDispatch.

(* ===================================================================== *)
(** * Cell 5: contextlib.closing                                         *)
(* ===================================================================== *)

Module Closing.
Import Py.

(** What the connection's own context manager does when its block ends. *)
Inductive conn_event : Type := Commit | Rollback.

(** The connection with the one cursor made from it. *)
Record db : Type := mk_db {
  conn_log : list conn_event;
  cursor_rows : list value;      (* the rows of the last statement *)
  cursor_closes : nat            (* how often cursor.close() has run *)
}.

(** cursor.execute(sql): [engine] is the database answering or failing. *)
Definition execute (engine : string -> result (list value)) (sql : string)
    : M db unit :=
  on_state (fun d =>
    match engine sql with
    | Ok rows => (Ok tt, mk_db (conn_log d) rows (cursor_closes d))
    | Raise e => (Raise e, d)
    end).

(** cursor.fetchall() *)
Definition fetchall : M db value :=
  on_state (fun d =>
    (Ok (VList (cursor_rows d)), mk_db (conn_log d) [] (cursor_closes d))).

(** cursor.close() *)
Definition cursor_close : M db unit :=
  on_state (fun d =>
    (Ok tt, mk_db (conn_log d) (cursor_rows d) (S (cursor_closes d)))).

(** with closing(thing) as x: body
    closing.__exit__ calls thing.close(), however the body ended, and lets
    the body's exception through. *)
Definition with_closing {S A} (close : M S unit) (body : M S A) : M S A :=
  fun w =>
    let '(r, w1) := body w in
    match close w1 with
    | (Ok _, w2) => (r, w2)
    | (Raise e, w2) => (Raise e, w2)
    end.

(** with sqlite3.connect(...) as connection: body
    Connection.__exit__ commits when the body ended normally and rolls
    back when it raised; it does not close the connection. *)
Definition with_connection {A} (body : M db A) : M db A :=
  fun w =>
    let '(r, (d, tr)) := body w in
    let ev := match r with Ok _ => Commit | Raise _ => Rollback end in
    (r, (mk_db (conn_log d ++ [ev]) (cursor_rows d) (cursor_closes d), tr)).

(** with sqlite3.connect('myOtherTest') as connection:
        with closing(connection.cursor()) as cursor:
            cursor.execute("SELECT 'HELLO WORLD'")
            print(cursor.fetchall()) *)
Definition query_block (engine : string -> result (list value)) : M db unit :=
  let* _ := execute engine "SELECT 'HELLO WORLD'" in
  let* rows := fetchall in
  print rows.

Definition cell (engine : string -> result (list value)) : M db unit :=
  with_connection (with_closing cursor_close (query_block engine)).

(** The connection just opened, its cursor just made. *)
Definition fresh : db * list event := (mk_db [] [] 0%nat, []).

End Closing.

(* ===================================================================== *)
(** * The vocabulary of the statements                                   *)
(* ===================================================================== *)

(** What the theorems below speak of besides the code itself: measures
    of a run, the invariants of the stateful objects, the schedules and
    interpreters used as instances, and the claims that are refuted, as
    they are written. *)

(** The delays of a log, added up. *)
Definition total_delay (log : Batched.sleeps) : Q :=
  fold_right Qplus 0%Q log.

Section pool_vocabulary.
Context {T : Type}.
Implicit Types (ex : Batched.executor T) (ws : list (Batched.wstate T)).
Implicit Types (subm : list T).

(** The work items the worker threads [ws] are inside of. *)
Definition tasks_of ws : list T :=
  omap (fun w => match w with Batched.WRunning t => Some t | _ => None end) ws.

(** The work items waiting in the queue. *)
Definition pending ex : list T := omap id (Batched.work_queue ex).

(** The invariant of the pool along a schedule on which the tasks [subm]
    have been submitted: the thread count is bounded, sentinels come last
    in the queue and only after shutdown, every submitted task is
    finished, running or queued, a worker has returned only after
    shutdown with nothing queued, and without threads nothing is queued. *)
Record pool_inv subm ex : Prop := {
  inv_max : 0 < Batched.max_workers ex;
  inv_bound : Z.of_nat (length (Batched.workers ex)) <= Batched.max_workers ex;
  inv_queue : exists k,
    Batched.work_queue ex = map Some (pending ex) ++ replicate k None /\
    (Batched.shutdown_flag ex = false -> k = 0%nat);
  inv_tasks : subm ≡ₚ Batched.finished ex ++ Batched.running ex ++ pending ex;
  inv_exited : Batched.WExited ∈ Batched.workers ex ->
    Batched.shutdown_flag ex = true /\ pending ex = [];
  inv_nothreads : Batched.workers ex = [] ->
    Batched.idle_semaphore ex = 0%nat /\ pending ex = []
}.

End pool_vocabulary.

(** The claim C3 as it is written: every task of either strategy sleeps
    for one millisecond in all. *)
Definition every_task_sleeps_1ms : Prop :=
  Forall (fun item =>
            (total_delay (Batched.single_task_sleeps item) == 1 # 1000)%Q)
    Batched.DATA /\
  exists chunks,
    Batched.batched Batched.DATA Batched.BATCH_SIZE = Py.Ok chunks /\
    Forall (fun chunk =>
              (total_delay (Batched.batch_task_sleeps chunk) == 1 # 1000)%Q)
      chunks.

(** The claim C4 as it is written, on the blocking of submissions: in a run
    of test_single, when all 50 workers are busy the main thread cannot
    go on with its next submission. *)
Definition submit_blocks_when_all_busy : Prop :=
  forall (acts : list (Batched.action Z)) ex0 ex t rest,
    Batched.new_executor Batched.MAX_WORKERS = Py.Ok ex0 ->
    Batched.run acts ex0 = Some ex ->
    Batched.main_actions acts ++ Batched.MainSubmit t :: rest
    = Batched.test_single ->
    Z.of_nat (length (Batched.workers ex)) = Batched.MAX_WORKERS ->
    Batched.all_busy ex ->
    Batched.do_action ex (Batched.MainSubmit t) = None.

(** The schedule on which one worker thread serves every task as soon as
    it is submitted, and returns after the shutdown. *)
Definition serve_one {T} (t : T) : list (Batched.action T) :=
  [Batched.MainSubmit t; Batched.Worker 0; Batched.Worker 0].

Definition serial_schedule {T} (tasks : list T) : list (Batched.action T) :=
  concat (map serve_one tasks) ++ [Batched.MainShutdown]
  ++ match tasks with [] => [] | _ :: _ => [Batched.Worker 0] end.

(** Fifty submissions of test_single, each taken up at once by the worker
    thread it starts. *)
Definition fifty_busy : list (Batched.action Z) :=
  concat (map (fun i => [Batched.MainSubmit 1; Batched.Worker i]) (seq 0 50)).

(** A run with three tasks, cut after the second submission. *)
Definition three_tasks_begin : list (Batched.action Z) :=
  [Batched.MainSubmit 1; Batched.Worker 0; Batched.MainSubmit 1].

Definition three_tasks_end : list (Batched.action Z) :=
  [Batched.MainSubmit 1; Batched.Worker 1; Batched.Worker 2;
   Batched.Worker 0; Batched.Worker 1; Batched.Worker 2;
   Batched.MainShutdown;
   Batched.Worker 0; Batched.Worker 1; Batched.Worker 2].

Definition three_tasks_fresh : Batched.executor Z :=
  Batched.mk_executor 50 [] 0%nat [] [] false.

Definition three_tasks_middle : Batched.executor Z :=
  Batched.mk_executor 50 [Batched.WRunning 1; Batched.WWaiting] 0%nat
    [Some 1] [] false.

Definition three_tasks_joined : Batched.executor Z :=
  Batched.mk_executor 50 [Batched.WExited; Batched.WExited; Batched.WExited]
    3%nat [None] [1; 1; 1] true.

(** The object [process] after the calls process(v) for v in [earlier]:
    the calls leave their trace in the dispatch cache. *)
Definition process_after `{SingleDispatch.StrOps} (earlier : list Py.value)
    : SingleDispatch.generic :=
  fold_left (fun g v => snd (SingleDispatch.call v g)) earlier
    SingleDispatch.process.

(** The handler the registry of [process] gives a class through its MRO. *)
Definition resolution `{SingleDispatch.StrOps} (cls : SingleDispatch.pytype)
    : Py.value -> Py.result Py.value :=
  match cls with
  | SingleDispatch.TInt | SingleDispatch.TBool => SingleDispatch.process_int
  | SingleDispatch.TStr => SingleDispatch.process_str
  | _ => SingleDispatch.process_default
  end.

(** The state of [process] between calls: the registry is the one the
    definitions built, and the cache agrees with it. *)
Definition process_inv `{SingleDispatch.StrOps} (g : SingleDispatch.generic)
    : Prop :=
  SingleDispatch.registry g = SingleDispatch.registry SingleDispatch.process /\
  forall cls impl,
    SingleDispatch.dispatch_cache g !! cls = Some impl ->
    impl = Some (resolution cls).




(** A pickler for text that stores it as it is. *)
Definition text_pickle : Shelve.Pickle string string :=
  {| Shelve.dumps := Py.Ok; Shelve.loads := Py.Ok |}.

(** The call of session.post that [post(json=payload)] makes. *)
Definition post_request (payload : Py.value) : Partial.request :=
  Partial.mk_request "POST" (Py.VStr Partial.graphql_url) None (Some payload) ∅.

(** ** Further vocabulary: the cells beyond the claims *)

(** The delays of all the tasks of a strategy, in the order of submission. *)
Definition all_sleeps {T} (task_sleeps : T -> Batched.sleeps) (tasks : list T)
    : Batched.sleeps :=
  concat (map task_sleeps tasks).

(** The worker threads that have not returned. *)
Definition alive {T} (ws : list (Batched.wstate T)) : list (Batched.wstate T) :=
  List.filter
    (fun w => match w with Batched.WExited => false | _ => true end) ws.

(** What is left to do before the join can return: a queued item is still
    to be taken and to be run, a running item to be finished, a thread to
    return. *)
Definition join_measure {T} (ex : Batched.executor T) : nat :=
  (2 * length (pending ex) + length (Batched.running ex)
   + length (alive (Batched.workers ex)))%nat.

(** After shutdown the sentinel closes the queue. *)
Definition sentinel_last {T} (ex : Batched.executor T) : Prop :=
  Batched.shutdown_flag ex = true ->
  exists q, Batched.work_queue ex = q ++ [None].

(** A schedule of worker steps only. *)
Definition worker_steps {T} (threads : list nat) : list (Batched.action T) :=
  map Batched.Worker threads.

(** What the shelf file [f] on [disk] holds under [k]; a missing file
    holds nothing. *)
Definition entry {bytes} (disk : gmap string (gmap string bytes))
    (f k : string) : option bytes :=
  default ∅ (disk !! f) !! k.

(** A pickler for text that refuses the empty text. *)
Definition nonempty_text_pickle : Shelve.Pickle string string :=
  {| Shelve.dumps := fun s =>
       match s with
       | EmptyString => Py.Raise (Py.PicklingError "empty text")
       | _ => Py.Ok s
       end;
     Shelve.loads := Py.Ok |}.

(** A server that is down. *)
Definition server_down (rq : Partial.request) : Py.result Py.value :=
  Py.Raise (Py.ConnectionError "connection refused").

(** The pool of the run with three tasks once the main thread has shut it
    down right after the second submission. *)
Definition three_tasks_shut : Batched.executor Z :=
  Batched.mk_executor 50 [Batched.WRunning 1; Batched.WWaiting] 0%nat
    [Some 1; None] [] true.




(* ===================================================================== *)
(** * Theorems                                                           *)
(* ===================================================================== *)

Section batched_facts.
Context {A : Type}.
Implicit Types (l : list A) (n rounds : nat).

Lemma batched_loop_concat rounds l n :
  (0 < n)%nat -> (length l <= rounds)%nat ->
  concat (Batched.batched_loop rounds l n) = l.
Proof.
  intros Hn. revert l.
  induction rounds as [|rounds IH]; intros l Hlen; simpl.
  - destruct l; [done | simpl in Hlen; lia].
  - destruct (take n l) as [|x batch] eqn:Htake.
    + destruct l as [|y l]; [done |].
      destruct n; [lia | discriminate].
    + simpl. rewrite IH.
      * rewrite app_comm_cons, <- Htake. apply take_drop.
      * rewrite length_drop.
        destruct l; [by destruct n | simpl in *; lia].
Qed.

Lemma batched_loop_replicate rounds (x : A) n k :
  (0 < n)%nat -> (k * n <= rounds)%nat ->
  Batched.batched_loop rounds (replicate (k * n) x) n
  = replicate k (replicate n x).
Proof.
  intros Hn. revert k.
  induction rounds as [|rounds IH]; intros k Hk.
  - assert (k = 0%nat) as -> by nia. done.
  - destruct k as [|k]; [simpl; by destruct n |].
    simpl Batched.batched_loop.
    replace (S k * n)%nat with (n + k * n)%nat by lia.
    rewrite replicate_add, take_app_length', drop_app_length'
      by (symmetry; apply length_replicate).
    rewrite IH by nia.
    destruct n; [lia | done].
Qed.

End batched_facts.

Lemma list_mul_singleton {A} (x : A) (n : Z) :
  Batched.list_mul [x] n = replicate (Z.to_nat n) x.
Proof.
  unfold Batched.list_mul.
  induction (Z.to_nat n) as [|k IH]; simpl; [done | by rewrite IH].
Qed.

Lemma DATA_replicate : Batched.DATA = replicate (50 * 400) 1.
Proof.
  unfold Batched.DATA. rewrite list_mul_singleton.
  replace (Z.to_nat 20000) with (50 * 400)%nat by lia. done.
Qed.

Lemma batched_DATA :
  Batched.batched Batched.DATA Batched.BATCH_SIZE
  = Py.Ok (replicate 50 (replicate 400 1)).
Proof.
  unfold Batched.batched, Batched.BATCH_SIZE.
  change (400 <? 1) with false. cbv iota.
  change (Z.to_nat 400) with 400%nat.
  rewrite DATA_replicate, length_replicate.
  by rewrite batched_loop_replicate by lia.
Qed.

Lemma batched_concat {A} (l : list A) (n : Z) (chunks : list (list A)) :
  Batched.batched l n = Py.Ok chunks -> concat chunks = l.
Proof.
  unfold Batched.batched. destruct (n <? 1) eqn:Hn; [done |].
  intros [= <-]. apply batched_loop_concat; lia.
Qed.

Lemma test_batch_program :
  Batched.test_batch
  = Py.Ok (Batched.with_executor
             (Batched.executor_map (replicate 50 (replicate 400 1)))).
Proof. unfold Batched.test_batch. by rewrite batched_DATA. Qed.

Lemma process_data_in_batch_sleeps {A} (items : list A) (log : Batched.sleeps) :
  Batched.process_data_in_batch items log
  = log ++ replicate (length items) Batched.SLEEP_TIME.
Proof.
  unfold Batched.process_data_in_batch. revert log.
  induction items as [|x items IH]; intros log; simpl.
  - by rewrite app_nil_r.
  - rewrite IH. unfold Batched.simulate_io_operation.
    by rewrite <- app_assoc.
Qed.

Lemma total_delay_replicate (n : nat) (q : Q) :
  (total_delay (replicate n q) == inject_Z (Z.of_nat n) * q)%Q.
Proof.
  induction n as [|n IH].
  - simpl. unfold Qeq; simpl. lia.
  - rewrite Nat2Z.inj_succ. simpl replicate. simpl total_delay.
    fold (total_delay (replicate n q)). rewrite IH.
    unfold Z.succ. rewrite inject_Z_plus. ring.
Qed.

(** ** The pool invariant *)

Section executor_facts.
Context {T : Type}.
Implicit Types (ex : Batched.executor T) (ws : list (Batched.wstate T)).
Implicit Types (acts : list (Batched.action T)) (subm : list T).

Lemma pool_inv_new n ex :
  Batched.new_executor n = Py.Ok ex -> pool_inv [] ex.
Proof.
  unfold Batched.new_executor. destruct (n <=? 0) eqn:Hn; [done |].
  intros [= <-]. split; simpl; try done.
  - lia.
  - lia.
  - exists 0%nat. done.
  - by intros ?%elem_of_nil.
Qed.

Lemma omap_id_Some (l : list T) : omap id (map Some l) = l.
Proof. induction l as [|x l IH]; csimpl; [done | by rewrite IH]. Qed.

Lemma omap_id_None k : omap id (replicate k (@None T)) = [].
Proof. induction k as [|k IH]; csimpl; [done | by rewrite IH]. Qed.

Lemma workers_split ws i w w' :
  ws !! i = Some w ->
  exists l1 l2, ws = l1 ++ w :: l2 /\ <[i := w']> ws = l1 ++ w' :: l2.
Proof.
  intros Hi. exists (take i ws), (drop (S i) ws). split.
  - symmetry. by apply take_drop_middle.
  - apply insert_take_drop. by eapply lookup_lt_Some.
Qed.

Lemma tasks_of_app ws1 ws2 : tasks_of (ws1 ++ ws2) = tasks_of ws1 ++ tasks_of ws2.
Proof. apply omap_app. Qed.

Lemma queue_head_None subm ex q :
  pool_inv subm ex -> Batched.work_queue ex = None :: q ->
  Batched.shutdown_flag ex = true /\ pending ex = [] /\
  exists k, q = replicate k None.
Proof.
  intros Hinv Hq. destruct (inv_queue _ _ Hinv) as (k & Hk & Hshut).
  assert (pending ex = []) as Hp.
  { destruct (pending ex) as [|t p]; [done |].
    rewrite Hq in Hk. discriminate. }
  rewrite Hp, Hq in Hk. simpl in Hk.
  destruct k as [|k]; [discriminate |]. simpl in Hk. injection Hk as ->.
  split_and!; [| done | by exists k].
  destruct (Batched.shutdown_flag ex); [done |].
  by specialize (Hshut eq_refl).
Qed.

Lemma queue_head_Some subm ex t q :
  pool_inv subm ex -> Batched.work_queue ex = Some t :: q ->
  exists p k, pending ex = t :: p /\ omap id q = p /\
    q = map Some p ++ replicate k None /\
    (Batched.shutdown_flag ex = false -> k = 0%nat).
Proof.
  intros Hinv Hq. destruct (inv_queue _ _ Hinv) as (k & Hk & Hshut).
  unfold pending in *. rewrite Hq in *. simpl in *.
  injection Hk as Hk. exists (omap id q), k. done.
Qed.

End executor_facts.

Section executor_steps.
Context {T : Type}.
Implicit Types (ex : Batched.executor T) (ws : list (Batched.wstate T)).
Implicit Types (acts : list (Batched.action T)) (subm p fin : list T).
Implicit Types (q : list (option T)).

Lemma pending_queue p k : omap id (map Some p ++ replicate k (@None T)) = p.
Proof. by rewrite omap_app, omap_id_Some, omap_id_None, app_nil_r. Qed.

(** The invariant, on the fields of the pool. *)
Lemma pool_inv_intro subm n ws sem q fin sh p k :
  0 < n ->
  Z.of_nat (length ws) <= n ->
  q = map Some p ++ replicate k None ->
  (sh = false -> k = 0%nat) ->
  subm ≡ₚ fin ++ tasks_of ws ++ p ->
  (Batched.WExited ∈ ws -> sh = true /\ p = []) ->
  (ws = [] -> sem = 0%nat /\ p = []) ->
  pool_inv subm (Batched.mk_executor n ws sem q fin sh).
Proof.
  intros Hn Hb -> Hk Hperm Hex Hno.
  split; unfold pending; simpl; rewrite ?pending_queue; try done.
  by exists k.
Qed.

Lemma pool_inv_elim subm n ws sem q fin sh :
  pool_inv subm (Batched.mk_executor n ws sem q fin sh) ->
  exists p k,
    0 < n /\
    Z.of_nat (length ws) <= n /\
    q = map Some p ++ replicate k None /\
    (sh = false -> k = 0%nat) /\
    subm ≡ₚ fin ++ tasks_of ws ++ p /\
    (Batched.WExited ∈ ws -> sh = true /\ p = []) /\
    (ws = [] -> sem = 0%nat /\ p = []).
Proof.
  intros [Hmax Hbound (k & Hq & Hk) Htasks Hex Hno].
  exists (omap id q), k. done.
Qed.

Lemma submit_inv subm ex ex' t :
  pool_inv subm ex -> Batched.submit ex t = Py.Ok ex' ->
  pool_inv (subm ++ [t]) ex'.
Proof.
  destruct ex as [n ws sem q fin sh].
  intros (p & k & Hn & Hb & -> & Hk & Hperm & Hex & Hno)%pool_inv_elim.
  unfold Batched.submit; simpl. destruct sh; [done |].
  intros [= <-]. specialize (Hk eq_refl) as ->. simpl. rewrite app_nil_r.
  assert (Hperm' : subm ++ [t] ≡ₚ fin ++ tasks_of ws ++ p ++ [t]).
  { rewrite Hperm. by rewrite <- !app_assoc. }
  assert (Hq' : map Some p ++ [Some t] = map Some (p ++ [t]) ++ replicate 0 None).
  { rewrite map_app. simpl. by rewrite app_nil_r. }
  unfold Batched.adjust_thread_count; simpl.
  destruct sem as [|sem].
  - destruct (Z.of_nat (length ws) <? n) eqn:Hlt.
    + eapply pool_inv_intro; try done.
      * rewrite length_app; simpl. lia.
      * rewrite tasks_of_app; simpl. by rewrite app_nil_r.
      * intros [Hin | Hin%list_elem_of_singleton]%elem_of_app; [| done].
        by destruct (Hex Hin).
      * by intros [_ [=]]%app_eq_nil.
    + eapply pool_inv_intro; try done.
      * intros Hin. by destruct (Hex Hin).
      * intros ->. apply Z.ltb_ge in Hlt. simpl in Hlt. lia.
  - eapply pool_inv_intro; try done.
    + intros Hin. by destruct (Hex Hin).
    + intros Hnil. by destruct (Hno Hnil).
Qed.

Lemma shutdown_inv subm ex :
  pool_inv subm ex -> pool_inv subm (Batched.shutdown ex).
Proof.
  destruct ex as [n ws sem q fin sh].
  intros (p & k & Hn & Hb & -> & Hk & Hperm & Hex & Hno)%pool_inv_elim.
  unfold Batched.shutdown; simpl.
  eapply (pool_inv_intro _ _ _ _ _ _ _ p (S k)); try done.
  - rewrite <- app_assoc. f_equal.
    change [@None T] with (replicate 1 (@None T)).
    rewrite <- replicate_add. f_equal. lia.
  - intros Hin. by destruct (Hex Hin).
Qed.

Lemma elem_of_replaced ws1 ws2 (w w' x : Batched.wstate T) :
  x ∈ ws1 ++ w' :: ws2 -> x = w' \/ x ∈ ws1 ++ w :: ws2.
Proof.
  intros [Hin | [-> | Hin]%elem_of_cons]%elem_of_app.
  - right. apply elem_of_app. by left.
  - by left.
  - right. apply elem_of_app. right. by right.
Qed.

Lemma tasks_of_middle ws1 ws2 (w : Batched.wstate T) :
  tasks_of (ws1 ++ w :: ws2)
  = tasks_of ws1 ++ tasks_of [w] ++ tasks_of ws2.
Proof.
  rewrite tasks_of_app. f_equal.
  change (w :: ws2) with ([w] ++ ws2). apply tasks_of_app.
Qed.

Lemma got_item_inv subm n ws sem item q fin sh i w :
  pool_inv subm (Batched.mk_executor n ws sem (item :: q) fin sh) ->
  ws !! i = Some w ->
  tasks_of [w] = [] ->
  pool_inv subm
    (Batched.got_item (Batched.mk_executor n ws sem (item :: q) fin sh)
       i item q).
Proof.
  intros (p & k & Hn & Hb & Hq & Hk & Hperm & Hex & Hno)%pool_inv_elim Hi Hw.
  unfold Batched.got_item; simpl.
  destruct item as [t|].
  - (* a work item: the worker runs it *)
    destruct p as [|t' p]; simpl in Hq.
    { destruct k; discriminate. }
    injection Hq as <- ->.
    destruct (workers_split ws i w (Batched.WRunning t) Hi)
      as (ws1 & ws2 & Hws & ->).
    eapply pool_inv_intro; try done.
    + rewrite Hws in Hb. by rewrite length_app in *.
    + rewrite Hperm, Hws, !tasks_of_middle, Hw. simpl.
      rewrite <- !app_assoc. simpl.
      apply Permutation_app_head, Permutation_app_head.
      by rewrite Permutation_middle.
    + intros [[=] | Hin]%(elem_of_replaced _ _ w).
      rewrite <- Hws in Hin. by destruct (Hex Hin).
    + by intros [_ [=]]%app_eq_nil.
  - (* the sentinel *)
    destruct p as [|t' p]; [| discriminate].
    destruct k as [|k]; [discriminate |]. simpl in Hq. injection Hq as ->.
    destruct sh; [| by specialize (Hk eq_refl)].
    destruct (workers_split ws i w Batched.WExited Hi)
      as (ws1 & ws2 & Hws & ->).
    eapply (pool_inv_intro _ _ _ _ _ _ _ [] (S k)); try done.
    + rewrite Hws in Hb. by rewrite length_app in *.
    + simpl. change [@None T] with (replicate 1 (@None T)).
      rewrite <- replicate_add.
      by replace (k + 1)%nat with (S k) by lia.
    + rewrite Hperm, Hws, !tasks_of_middle, Hw. done.
    + by intros [_ [=]]%app_eq_nil.
Qed.

Lemma worker_inv subm ex ex' i :
  pool_inv subm ex -> Batched.worker_step ex i = Some ex' ->
  pool_inv subm ex'.
Proof.
  destruct ex as [n ws sem q fin sh]. intros Hinv.
  unfold Batched.worker_step; simpl.
  destruct (ws !! i) as [w|] eqn:Hi; [| done].
  destruct w as [|t|]; [| | done].
  - (* in get() *)
    destruct q as [|item q]; [done |].
    intros [= <-]. by eapply got_item_inv.
  - (* the work item returns *)
    intros [= <-].
    apply pool_inv_elim in Hinv
      as (p & k & Hn & Hb & Hq & Hk & Hperm & Hex & Hno).
    destruct (workers_split ws i _ Batched.WWaiting Hi)
      as (ws1 & ws2 & Hws & ->).
    eapply pool_inv_intro; try done.
    + rewrite Hws in Hb. by rewrite length_app in *.
    + rewrite Hperm, Hws, !tasks_of_middle. simpl.
      rewrite <- !app_assoc. simpl.
      apply Permutation_app_head.
      by rewrite <- Permutation_middle.
    + intros [[=] | Hin]%(elem_of_replaced _ _ (Batched.WRunning t)).
      rewrite <- Hws in Hin. by destruct (Hex Hin).
    + by intros [_ [=]]%app_eq_nil.
Qed.

Lemma do_action_inv subm ex ex' a :
  pool_inv subm ex -> Batched.do_action ex a = Some ex' ->
  pool_inv (subm ++ Batched.submitted [a]) ex'.
Proof.
  intros Hinv. destruct a as [t| |i]; simpl.
  - destruct (Batched.submit ex t) as [ex1|] eqn:Hs; [| done].
    intros [= <-]. by eapply submit_inv.
  - intros [= <-]. rewrite app_nil_r. by apply shutdown_inv.
  - intros Hw. rewrite app_nil_r. by eapply worker_inv.
Qed.

Lemma submitted_cons (a : Batched.action T) acts :
  Batched.submitted (a :: acts)
  = Batched.submitted [a] ++ Batched.submitted acts.
Proof. change (a :: acts) with ([a] ++ acts). apply omap_app. Qed.

Lemma run_inv acts : forall subm ex ex',
  pool_inv subm ex -> Batched.run acts ex = Some ex' ->
  pool_inv (subm ++ Batched.submitted acts) ex'.
Proof.
  induction acts as [|a acts IH]; intros subm ex ex' Hinv Hrun;
    simpl in Hrun.
  - injection Hrun as <-. unfold Batched.submitted. simpl.
    by rewrite app_nil_r.
  - destruct (Batched.do_action ex a) as [ex1|] eqn:Ha; [| done].
    eapply IH in Hrun; [| by eapply do_action_inv].
    by rewrite submitted_cons, app_assoc.
Qed.

Lemma do_action_max_workers ex ex' (a : Batched.action T) :
  Batched.do_action ex a = Some ex' ->
  Batched.max_workers ex' = Batched.max_workers ex.
Proof.
  destruct a as [t| |i]; simpl.
  - unfold Batched.submit, Batched.adjust_thread_count.
    destruct (Batched.shutdown_flag ex); [done |]. simpl.
    destruct (Batched.idle_semaphore ex); [destruct (_ <? _) |];
      by intros [= <-].
  - by intros [= <-].
  - unfold Batched.worker_step, Batched.got_item.
    repeat case_match; by intros [= <-].
Qed.

Lemma run_max_workers acts : forall ex ex',
  Batched.run acts ex = Some ex' ->
  Batched.max_workers ex' = Batched.max_workers ex.
Proof.
  induction acts as [|a acts IH]; intros ex ex'; simpl.
  - by intros [= <-].
  - destruct (Batched.do_action ex a) as [ex1|] eqn:Ha; [| done].
    intros Hrun. rewrite (IH _ _ Hrun).
    by apply do_action_max_workers in Ha.
Qed.

Lemma run_app acts1 acts2 ex :
  Batched.run (acts1 ++ acts2) ex
  = match Batched.run acts1 ex with
    | Some ex1 => Batched.run acts2 ex1
    | None => None
    end.
Proof.
  revert ex. induction acts1 as [|a acts1 IH]; intros ex; simpl; [done |].
  by destruct (Batched.do_action ex a).
Qed.

Lemma tasks_of_exited ws :
  Forall (fun w => w = Batched.WExited) ws -> tasks_of ws = [].
Proof. induction 1 as [|w ws -> _ IH]; [done | by csimpl]. Qed.

(** When the join returns, nothing is queued, nothing is running, and what
    has finished is what was submitted. *)
Lemma joined_all_finished subm ex :
  pool_inv subm ex -> Batched.joined ex ->
  Batched.running ex = [] /\ pending ex = [] /\ Batched.finished ex ≡ₚ subm.
Proof.
  intros [Hmax Hbound Hq Htasks Hex Hno] [Hshut Hall].
  assert (Hrun : Batched.running ex = []).
  { by apply tasks_of_exited. }
  assert (Hpend : pending ex = []).
  { destruct (Batched.workers ex) as [|w ws] eqn:Hws.
    - by destruct (Hno eq_refl).
    - apply Forall_cons in Hall as [-> _].
      apply Hex. by left. }
  split_and!; [done | done |].
  by rewrite Htasks, Hrun, Hpend, app_nil_r.
Qed.

Lemma submitted_main_actions acts :
  Batched.submitted (Batched.main_actions acts) = Batched.submitted acts.
Proof.
  induction acts as [|a acts IH]; [done |].
  rewrite submitted_cons, <- IH. destruct a as [t| |i].
  - change (Batched.main_actions (Batched.MainSubmit t :: acts))
      with (Batched.MainSubmit t :: Batched.main_actions acts).
    by rewrite submitted_cons.
  - change (Batched.main_actions (Batched.MainShutdown :: acts))
      with (Batched.MainShutdown :: Batched.main_actions acts).
    by rewrite submitted_cons.
  - done.
Qed.

Lemma submitted_program (tasks : list T) :
  Batched.submitted (Batched.with_executor (Batched.executor_map tasks))
  = tasks.
Proof.
  unfold Batched.submitted, Batched.with_executor, Batched.executor_map.
  rewrite omap_app. simpl. rewrite app_nil_r.
  induction tasks as [|t tasks IH]; csimpl; [done | by rewrite IH].
Qed.

End executor_steps.

(* ===================================================================== *)
(** * Cell 3: the claims                                                 *)
(* ===================================================================== *)

(** C1: batched(DATA, BATCH_SIZE), as test_batch calls it, splits the
    20,000 elements of DATA into exactly 50 chunks, each of length 400,
    whose concatenation in order is DATA again; test_batch submits one
    task per chunk. *)
Theorem batched_DATA_chunks :
  Z.of_nat (length Batched.DATA) = 20000 /\
  exists chunks,
    Batched.batched Batched.DATA Batched.BATCH_SIZE = Py.Ok chunks /\
    Batched.test_batch
    = Py.Ok (Batched.with_executor (Batched.executor_map chunks)) /\
    Z.of_nat (length chunks) = 50 /\
    Forall (fun chunk => Z.of_nat (length chunk) = 400) chunks /\
    concat chunks = Batched.DATA.
Proof.
  split.
  { rewrite DATA_replicate, length_replicate. lia. }
  exists (replicate 50 (replicate 400 1)).
  split_and!.
  - apply batched_DATA.
  - apply test_batch_program.
  - by rewrite length_replicate.
  - apply Forall_replicate. by rewrite length_replicate.
  - apply (batched_concat _ _ _ batched_DATA).
Qed.

Lemma batch_task_sleeps_replicate (chunk : list Z) :
  Batched.batch_task_sleeps chunk
  = replicate (length chunk) Batched.SLEEP_TIME.
Proof.
  unfold Batched.batch_task_sleeps. by rewrite process_data_in_batch_sleeps.
Qed.

(** C3, refuted as written: a task of test_batch runs the simulated
    operation once per element of its chunk, 400 delays of a millisecond. *)
Lemma every_task_sleeps_1ms_fails : ~ every_task_sleeps_1ms.
Proof.
  intros (_ & chunks & Hb & Hall).
  assert (chunks = replicate 50 (replicate 400 1)) as ->.
  { pose proof batched_DATA. congruence. }
  rewrite Forall_forall in Hall.
  specialize (Hall (replicate 400 1)) as Hchunk.
  rewrite batch_task_sleeps_replicate, length_replicate,
    total_delay_replicate in Hchunk.
  assert (~ (inject_Z (Z.of_nat 400) * Batched.SLEEP_TIME == 1 # 1000)%Q)
    as Hne by (vm_compute; discriminate).
  apply Hne, Hchunk, elem_of_replicate. split; [reflexivity | lia].
Qed.

(** C3, as the code has it: a task of test_single asks for one delay of
    SLEEP_TIME, a millisecond; a task of test_batch asks for one such delay
    per element of its chunk, so 400 delays, 400 milliseconds in all. *)
Theorem task_sleeps :
  (Batched.SLEEP_TIME == 1 # 1000)%Q /\
  (forall item : Z, Batched.single_task_sleeps item = [Batched.SLEEP_TIME]) /\
  (forall chunk : list Z,
     Batched.batch_task_sleeps chunk
     = replicate (length chunk) Batched.SLEEP_TIME) /\
  exists chunks,
    Batched.batched Batched.DATA Batched.BATCH_SIZE = Py.Ok chunks /\
    Forall (fun chunk =>
              Batched.batch_task_sleeps chunk
              = replicate 400 Batched.SLEEP_TIME /\
              (total_delay (Batched.batch_task_sleeps chunk) == 400 # 1000)%Q)
      chunks.
Proof.
  split_and!.
  - reflexivity.
  - done.
  - apply batch_task_sleeps_replicate.
  - exists (replicate 50 (replicate 400 1)). split; [apply batched_DATA |].
    apply Forall_replicate.
    rewrite batch_task_sleeps_replicate, length_replicate. split; [done |].
    rewrite total_delay_replicate. reflexivity.
Qed.

(** C4, refuted as written: with all 50 workers inside a work item, the
    51st submission of test_single returns at once and its item waits in
    the queue. *)
Lemma submit_blocks_when_all_busy_fails : ~ submit_blocks_when_all_busy.
Proof.
  intros Hclaim.
  specialize (Hclaim fifty_busy
    (Batched.mk_executor 50 [] 0%nat [] [] false)
    (Batched.mk_executor 50 (replicate 50 (Batched.WRunning 1)) 0%nat []
       [] false)
    1
    (Batched.with_executor (Batched.executor_map (replicate (Z.to_nat 19949) 1)))).
  discriminate Hclaim.
  - reflexivity.
  - vm_cast_no_check (eq_refl (Batched.run fifty_busy
      (Batched.mk_executor 50 [] 0%nat [] [] false))).
  - vm_cast_no_check (eq_refl Batched.test_single).
  - reflexivity.
  - apply Forall_replicate. by exists 1.
Qed.

(** C4, as the pool works: in every run of a benchmark function on a
    fresh pool of MAX_WORKERS = 50, at every point of the run there are at
    most 50 worker threads; as long as the pool is not shut down a
    submission returns at once, whatever the workers do, and its item joins
    the queue; and when the join at the end of the with block returns,
    nothing is queued or running and the finished items are exactly the
    submitted tasks. *)
Theorem pool_bounded_unblocked_joined {T} (tasks : list T)
    (acts1 acts2 : list (Batched.action T)) ex0 ex1 ex2 :
  Batched.new_executor Batched.MAX_WORKERS = Py.Ok ex0 ->
  Batched.run acts1 ex0 = Some ex1 ->
  Batched.run acts2 ex1 = Some ex2 ->
  Batched.main_actions (acts1 ++ acts2)
  = Batched.with_executor (Batched.executor_map tasks) ->
  Batched.joined ex2 ->
  Batched.MAX_WORKERS = 50 /\
  (length (Batched.workers ex1) <= 50)%nat /\
  (Batched.shutdown_flag ex1 = false ->
   forall t, exists ex',
     Batched.submit ex1 t = Py.Ok ex' /\ pending ex' = pending ex1 ++ [t]) /\
  Batched.running ex2 = [] /\ pending ex2 = [] /\
  Batched.finished ex2 ≡ₚ tasks.
Proof.
  intros Hnew Hrun1 Hrun2 Hmain Hjoin.
  pose proof (pool_inv_new _ _ Hnew) as Hinv0.
  pose proof (run_inv _ _ _ _ Hinv0 Hrun1) as Hinv1.
  assert (Hrun : Batched.run (acts1 ++ acts2) ex0 = Some ex2).
  { by rewrite run_app, Hrun1. }
  pose proof (run_inv _ _ _ _ Hinv0 Hrun) as Hinv2. simpl in Hinv2.
  rewrite <- submitted_main_actions, Hmain, submitted_program in Hinv2.
  split_and!.
  - done.
  - assert (Batched.max_workers ex1 = 50) as Hmax.
    { rewrite (run_max_workers _ _ _ Hrun1).
      unfold Batched.new_executor in Hnew. by injection Hnew as <-. }
    pose proof (inv_bound _ _ Hinv1). lia.
  - intros Hshut t. unfold Batched.submit. rewrite Hshut.
    eexists. split; [done |].
    unfold pending, Batched.adjust_thread_count; simpl.
    destruct (Batched.idle_semaphore ex1); simpl;
      [destruct (_ <? _); simpl |]; by rewrite omap_app.
  - by eapply joined_all_finished.
  - by eapply joined_all_finished.
  - by eapply joined_all_finished.
Qed.

Lemma pool_bounded_unblocked_joined_witness :
  Batched.run (three_tasks_begin ++ three_tasks_end) three_tasks_fresh
  = Some three_tasks_joined /\
  Batched.joined three_tasks_joined /\
  (length (Batched.workers three_tasks_middle) <= 50)%nat /\
  Batched.finished three_tasks_joined ≡ₚ [1; 1; 1].
Proof.
  assert (Hj : Batched.joined three_tasks_joined).
  { split; [reflexivity | repeat constructor]. }
  split_and!; [reflexivity | exact Hj | |];
    eapply (pool_bounded_unblocked_joined [1; 1; 1]
              three_tasks_begin three_tasks_end
              three_tasks_fresh three_tasks_middle three_tasks_joined);
    (reflexivity || exact Hj).
Defined.

(** The with block can be left: on the serial schedule the run of a
    benchmark function is complete, with every task finished in order. *)
Lemma serve_steady {T} (tasks : list T) : forall fin : list T,
  Batched.run (concat (map serve_one tasks))
    (Batched.mk_executor 50 [Batched.WWaiting] 1%nat [] fin false)
  = Some (Batched.mk_executor 50 [Batched.WWaiting] 1%nat [] (fin ++ tasks)
            false).
Proof.
  induction tasks as [|t tasks IH]; intros fin.
  - by rewrite app_nil_r.
  - change (concat (map serve_one (t :: tasks)))
      with (serve_one t ++ concat (map serve_one tasks)).
    rewrite run_app.
    change (Batched.run (serve_one t)
              (Batched.mk_executor 50 [Batched.WWaiting] 1%nat [] fin false))
      with (Some (Batched.mk_executor 50 [Batched.WWaiting] 1%nat []
                    (fin ++ [t]) false)).
    cbv beta iota. by rewrite IH, <- app_assoc.
Qed.

Lemma main_actions_app {T} (acts1 acts2 : list (Batched.action T)) :
  Batched.main_actions (acts1 ++ acts2)
  = Batched.main_actions acts1 ++ Batched.main_actions acts2.
Proof. apply List.filter_app. Qed.

Lemma main_actions_serve {T} (tasks : list T) :
  Batched.main_actions (concat (map serve_one tasks))
  = Batched.executor_map tasks.
Proof.
  induction tasks as [|t tasks IH]; [done |].
  change (concat (map serve_one (t :: tasks)))
    with (serve_one t ++ concat (map serve_one tasks)).
  rewrite main_actions_app, IH. done.
Qed.

Lemma benchmark_completes {T} (tasks : list T) :
  exists ex,
    Batched.complete_run (Batched.with_executor (Batched.executor_map tasks))
      (serial_schedule tasks) ex /\
    Batched.finished ex = tasks.
Proof.
  destruct tasks as [|t tasks].
  - exists (Batched.mk_executor 50 [] 0%nat [None] [] true).
    split; [| done]. split_and!; [done | | by split].
    eexists. split; reflexivity.
  - exists (Batched.mk_executor 50 [Batched.WExited] 1%nat [None]
              (t :: tasks) true).
    split; [| done]. split_and!.
    + unfold serial_schedule.
      rewrite main_actions_app, main_actions_serve. done.
    + eexists. split; [reflexivity |].
      unfold serial_schedule.
      change (concat (map serve_one (t :: tasks)))
        with (serve_one t ++ concat (map serve_one tasks)).
      rewrite <- app_assoc, run_app.
      change (Batched.run (serve_one t)
                (Batched.mk_executor Batched.MAX_WORKERS [] 0%nat [] [] false))
        with (Some (Batched.mk_executor 50 [Batched.WWaiting] 1%nat []
                      ([] ++ [t]) false)).
      cbv beta iota. rewrite run_app, serve_steady. done.
    + split; [done |]. by repeat constructor.
Qed.

Lemma test_single_completes :
  exists acts ex, Batched.complete_run Batched.test_single acts ex /\
                  Batched.finished ex = Batched.DATA.
Proof.
  exists (serial_schedule Batched.DATA). apply benchmark_completes.
Qed.

Lemma test_batch_completes :
  exists program acts ex,
    Batched.test_batch = Py.Ok program /\
    Batched.complete_run program acts ex /\
    length (Batched.finished ex) = 50%nat.
Proof.
  destruct (benchmark_completes (replicate 50 (replicate 400 1)))
    as (ex & Hrun & Hfin).
  eexists _, _, ex. split; [apply test_batch_program |].
  split; [exact Hrun |]. by rewrite Hfin, length_replicate.
Qed.

(* ===================================================================== *)
(** * Cell 4: the claims                                                 *)
(* ===================================================================== *)

Section dispatch_facts.
Context `{SingleDispatch.StrOps}.
Import SingleDispatch.

Lemma registry_resolution cls :
  match registry process !! cls with
  | Some f => Some f
  | None => find_impl cls (registry process)
  end = Some (resolution cls).
Proof. by destruct cls. Qed.

Lemma dispatch_process cls g :
  process_inv g ->
  fst (dispatch cls g) = Some (resolution cls) /\
  process_inv (snd (dispatch cls g)).
Proof.
  intros [Hreg Hcache]. unfold dispatch.
  destruct (dispatch_cache g !! cls) as [impl|] eqn:Hc; simpl.
  - split; [by rewrite (Hcache _ _ Hc) | by split].
  - rewrite Hreg, registry_resolution. simpl. split; [done |].
    split; [done |]. intros cls' impl. simpl. rewrite lookup_insert.
    case_decide as Hcls; [intros [= <-]; by subst | apply Hcache].
Qed.

Lemma call_process_inv v g :
  process_inv g ->
  fst (call v g) = resolution (type_of v) v /\ process_inv (snd (call v g)).
Proof.
  intros Hinv. unfold call.
  destruct (dispatch_process (type_of v) g Hinv) as [Hd Hinv'].
  destruct (dispatch (type_of v) g) as [impl g']; simpl in *.
  by subst impl.
Qed.

Lemma process_inv_initial : process_inv process.
Proof. split; [done |]. intros cls f. simpl. by rewrite lookup_empty. Qed.

Lemma process_after_inv earlier : process_inv (process_after earlier).
Proof.
  unfold process_after. generalize process_inv_initial.
  generalize process. induction earlier as [|v earlier IH]; intros g Hg.
  - done.
  - simpl. apply IH. by apply call_process_inv.
Qed.

Lemma process_after_snoc earlier v :
  process_after (earlier ++ [v]) = snd (call v (process_after earlier)).
Proof. unfold process_after. by rewrite fold_left_app. Qed.

Lemma call_process_after earlier v :
  fst (call v (process_after earlier)) = resolution (type_of v) v.
Proof. apply call_process_inv, process_after_inv. Qed.

End dispatch_facts.

(** C2: whatever calls came before, process(n) returns n + 10 for every
    integer n, process(s) returns s.upper() for every string s, and
    process of a list raises NotImplementedError("Unsupported type"). *)
Theorem process_int_str_list `{SingleDispatch.StrOps}
    (earlier : list Py.value) :
  (forall n : Z,
     fst (SingleDispatch.call (Py.VInt n) (process_after earlier))
     = Py.Ok (Py.VInt (n + 10))) /\
  (forall s : string,
     fst (SingleDispatch.call (Py.VStr s) (process_after earlier))
     = Py.Ok (Py.VStr (SingleDispatch.str_upper s))) /\
  (forall items : list Py.value,
     fst (SingleDispatch.call (Py.VList items) (process_after earlier))
     = Py.Raise (Py.NotImplementedError "Unsupported type")).
Proof.
  split_and!; intros x; by rewrite call_process_after.
Qed.

(** C10: a boolean is dispatched to the handler registered for int, its
    class having int in its MRO: process(b) returns b + 10 and does not
    raise; process(True) is 11. *)
Theorem process_bool `{SingleDispatch.StrOps} (earlier : list Py.value) :
  (forall b : bool,
     fst (SingleDispatch.dispatch SingleDispatch.TBool (process_after earlier))
     = Some SingleDispatch.process_int /\
     fst (SingleDispatch.call (Py.VBool b) (process_after earlier))
     = Py.Ok (Py.VInt (Z.b2z b + 10))) /\
  fst (SingleDispatch.call (Py.VBool true) SingleDispatch.process)
  = Py.Ok (Py.VInt 11).
Proof.
  split; [| done]. intros b. split.
  - apply dispatch_process, process_after_inv.
  - by rewrite call_process_after.
Qed.

(** C9: once its three definitions have run, the registry of process
    holds exactly three entries, the fallback under object and the
    handlers registered for int and str; no call of process changes it
    (a call only fills the dispatch cache), so it is the same after the
    usage part of the cell. *)
Theorem process_registry_fixed `{SingleDispatch.StrOps} :
  SingleDispatch.registry SingleDispatch.process
  = <[SingleDispatch.TStr := SingleDispatch.process_str]>
      (<[SingleDispatch.TInt := SingleDispatch.process_int]>
         {[SingleDispatch.TObject := SingleDispatch.process_default]}) /\
  dom (SingleDispatch.registry SingleDispatch.process)
  = ({[SingleDispatch.TObject; SingleDispatch.TInt; SingleDispatch.TStr]}
       : gset SingleDispatch.pytype) /\
  size (SingleDispatch.registry SingleDispatch.process) = 3%nat /\
  (forall (earlier : list Py.value) (v : Py.value),
     SingleDispatch.registry
       (snd (SingleDispatch.call v (process_after earlier)))
     = SingleDispatch.registry SingleDispatch.process) /\
  SingleDispatch.registry (fst (snd SingleDispatch.cell))
  = SingleDispatch.registry SingleDispatch.process.
Proof.
  split_and!.
  - done.
  - simpl. rewrite !dom_insert_L, dom_singleton_L. set_solver.
  - done.
  - intros earlier v.
    apply (call_process_inv v _ (process_after_inv earlier)).
  - done.
Qed.




(** The cell as run, with str.upper on ASCII text: it prints 20, HELLO
    and the message of the caught error. *)
Lemma cell_output :
  Py.printed (snd (snd (@SingleDispatch.cell SingleDispatch.ascii_ops)))
  = [Py.VInt 20; Py.VStr "HELLO";
     Py.VStr "NotImplementedError error caught: Unsupported type"].
Proof. reflexivity. Qed.

(* ===================================================================== *)
(** * Cell 1: the claim                                                  *)
(* ===================================================================== *)





Lemma text_pickle_inverse : @Shelve.PickleInverse string string text_pickle.
Proof. intros v b [= <-]. reflexivity. Qed.


(* ===================================================================== *)
(** * Cell 2: the claim                                                  *)
(* ===================================================================== *)

Lemma post_json_call (server : Partial.request -> Py.result Py.value)
    (payload : Py.value) (calls : list Partial.request) :
  Partial.post_json server payload calls
  = (server (post_request payload), calls ++ [post_request payload]).
Proof. reflexivity. Qed.

(** C7: for every two payloads, distinct or not, and whatever the
    server answers, calling [post] once with each issues exactly two calls
    of session.post, in order, and both go to graphql_url, the url that
    partial bound. *)
Theorem post_twice_same_endpoint
    (server : Partial.request -> Py.result Py.value)
    (payload1 payload2 : Py.value) (calls : list Partial.request) :
  let calls1 := snd (Partial.post_json server payload1 calls) in
  let calls2 := snd (Partial.post_json server payload2 calls1) in
  calls2 = calls ++ [post_request payload1; post_request payload2] /\
  length calls2 = (length calls + 2)%nat /\
  Partial.rq_url (post_request payload1) = Py.VStr Partial.graphql_url /\
  Partial.rq_url (post_request payload2) = Py.VStr Partial.graphql_url /\
  Partial.rq_json (post_request payload1) = Some payload1 /\
  Partial.rq_json (post_request payload2) = Some payload2.
Proof.
  cbv zeta. rewrite !post_json_call. cbn [snd]. rewrite <- app_assoc.
  split_and!; try done.
  rewrite length_app. simpl. lia.
Qed.

(** The cell itself, when the server answers both calls. *)
Lemma cell_two_calls (server : Partial.request -> Py.result Py.value)
    (resp1 resp2 : Py.value) :
  server (post_request (Partial.query Partial.body_continents)) = Py.Ok resp1 ->
  server (post_request (Partial.query Partial.body_country)) = Py.Ok resp2 ->
  Partial.cell server []
  = (Py.Ok (resp1, resp2),
     [post_request (Partial.query Partial.body_continents);
      post_request (Partial.query Partial.body_country)]).
Proof.
  intros H1 H2. unfold Partial.cell. rewrite !post_json_call, H1.
  by rewrite H2.
Qed.

(* ===================================================================== *)
(** * Cell 5: the claim                                                  *)
(* ===================================================================== *)

(** C8: whether the query succeeds or raises, cursor.close() has run
    exactly once when the block of [closing] is left: the count of closes
    goes up by one from whatever it was, to 1 in the cell; on success the
    rows are printed, on failure the exception of the query leaves the
    block after the close.  The same holds of any body put in the block:
    however it ends, one close follows it. *)
Theorem cursor_closed_once (engine : string -> Py.result (list Py.value))
    (d : Closing.db) (tr : list Py.event) :
  let block := Closing.with_closing Closing.cursor_close
                 (Closing.query_block engine) in
  Closing.cursor_closes (fst (snd (block (d, tr))))
  = S (Closing.cursor_closes d) /\
  Closing.cursor_closes (fst (snd (Closing.cell engine Closing.fresh)))
  = 1%nat /\
  match engine "SELECT 'HELLO WORLD'" with
  | Py.Ok rows =>
      fst (block (d, tr)) = Py.Ok tt /\
      snd (snd (block (d, tr))) = tr ++ [Py.Printed (Py.VList rows)]
  | Py.Raise e =>
      fst (block (d, tr)) = Py.Raise e /\ snd (snd (block (d, tr))) = tr
  end /\
  forall (A : Type) (body : Py.M Closing.db A),
    Closing.cursor_closes
      (fst (snd (Closing.with_closing Closing.cursor_close body (d, tr))))
    = S (Closing.cursor_closes (fst (snd (body (d, tr))))) /\
    fst (Closing.with_closing Closing.cursor_close body (d, tr))
    = fst (body (d, tr)).
Proof.
  simpl. split_and!.
  - unfold Closing.with_closing, Closing.query_block, Closing.execute,
      Closing.fetchall, Closing.cursor_close, Py.bind, Py.on_state, Py.print.
    simpl. by destruct (engine "SELECT 'HELLO WORLD'").
  - unfold Closing.cell, Closing.with_connection, Closing.with_closing,
      Closing.query_block, Closing.execute, Closing.fetchall,
      Closing.cursor_close, Py.bind, Py.on_state, Py.print, Closing.fresh.
    simpl. by destruct (engine "SELECT 'HELLO WORLD'").
  - unfold Closing.with_closing, Closing.query_block, Closing.execute,
      Closing.fetchall, Closing.cursor_close, Py.bind, Py.on_state, Py.print.
    simpl. by destruct (engine "SELECT 'HELLO WORLD'").
  - intros A body.
    unfold Closing.with_closing, Closing.cursor_close, Py.on_state.
    by destruct (body (d, tr)) as [r [d' tr']].
Qed.

(* ===================================================================== *)
(** * Cell 3: further properties                                         *)
(* ===================================================================== *)

Section batched_more.
Context {A : Type}.
Implicit Types (l : list A) (n rounds : nat).

Lemma batched_loop_step rounds l n x :
  (0 < n)%nat ->
  Batched.batched_loop (S rounds) (x :: l) n
  = take n (x :: l) :: Batched.batched_loop rounds (drop n (x :: l)) n.
Proof. intros Hn. destruct n as [|n]; [lia | done]. Qed.

Lemma batched_loop_nil rounds n : Batched.batched_loop rounds (@nil A) n = [].
Proof. destruct rounds; [done |]. simpl. by destruct n. Qed.

Lemma batched_loop_sizes rounds : forall l n,
  (0 < n)%nat -> (length l <= rounds)%nat ->
  Forall (fun chunk => (1 <= length chunk <= n)%nat)
    (Batched.batched_loop rounds l n).
Proof.
  induction rounds as [|rounds IH]; intros l n Hn Hlen; [by constructor |].
  destruct l as [|x l]; [rewrite batched_loop_nil; by constructor |].
  rewrite batched_loop_step by done. constructor.
  - rewrite length_take. simpl length. lia.
  - apply IH; [done |]. rewrite length_drop. simpl in *. lia.
Qed.

Lemma batched_loop_count rounds : forall l n,
  (0 < n)%nat -> (length l <= rounds)%nat ->
  (length l <= length (Batched.batched_loop rounds l n) * n < length l + n)%nat.
Proof.
  induction rounds as [|rounds IH]; intros l n Hn Hlen.
  - destruct l; simpl in *; lia.
  - destruct l as [|x l]; [rewrite batched_loop_nil; simpl; lia |].
    rewrite batched_loop_step by done.
    specialize (IH (drop n (x :: l)) n Hn).
    rewrite length_drop in IH. simpl length in *.
    destruct (decide (S (length l) <= n)%nat) as [Hle|Hgt].
    + replace (S (length l) - n)%nat with 0%nat in IH by lia.
      assert (length (Batched.batched_loop rounds (drop n (x :: l)) n) = 0%nat)
        as -> by nia.
      lia.
    + specialize (IH ltac:(lia)). nia.
Qed.

Lemma batched_loop_full rounds : forall l n i chunk,
  (0 < n)%nat -> (length l <= rounds)%nat ->
  Batched.batched_loop rounds l n !! i = Some chunk ->
  (S i < length (Batched.batched_loop rounds l n))%nat ->
  length chunk = n.
Proof.
  induction rounds as [|rounds IH]; intros l n i chunk Hn Hlen; [done |].
  destruct l as [|x l]; [by rewrite batched_loop_nil |].
  rewrite batched_loop_step by done.
  assert (Hdrop : (length (drop n (x :: l)) <= rounds)%nat).
  { rewrite length_drop. simpl in *. lia. }
  destruct i as [|i]; simpl lookup; simpl length.
  - intros [= <-] Hmore.
    destruct (drop n (x :: l)) as [|y rest] eqn:Hd.
    { rewrite batched_loop_nil in Hmore. simpl in Hmore. lia. }
    rewrite length_take.
    assert (length (drop n (x :: l)) <> 0)%nat as Hne by (rewrite Hd; done).
    rewrite length_drop in Hne. lia.
  - intros Hi Hmore. eapply IH; [done | exact Hdrop | exact Hi | lia].
Qed.

End batched_more.

(** X1: whenever batched returns, n is at least 1 and its chunks, in
    order, concatenate to the input; no chunk is empty, none is longer
    than n, and an empty input gives no chunk. *)
Theorem batched_partition {A} (l : list A) (n : Z)
    (chunks : list (list A)) :
  Batched.batched l n = Py.Ok chunks ->
  1 <= n /\ concat chunks = l /\
  Forall (fun chunk => 1 <= Z.of_nat (length chunk) <= n) chunks /\
  (l = [] -> chunks = []).
Proof.
  intros Hb.
  assert (Hc : concat chunks = l) by by eapply batched_concat.
  unfold Batched.batched in Hb. destruct (n <? 1) eqn:Hn; [done |].
  injection Hb as <-. split_and!.
  - lia.
  - done.
  - eapply Forall_impl; [apply batched_loop_sizes; [lia | done] |].
    simpl. intros chunk Hchunk. lia.
  - intros ->. apply batched_loop_nil.
Qed.

Lemma batched_partition_witness :
  Batched.batched [1; 2; 3; 4; 5] 2 = Py.Ok [[1; 2]; [3; 4]; [5]] /\
  concat [[1; 2]; [3; 4]; [5]] = [1; 2; 3; 4; 5].
Proof.
  split; [reflexivity |].
  apply (batched_partition [1; 2; 3; 4; 5] 2 [[1; 2]; [3; 4]; [5]]).
  reflexivity.
Defined.

(** X2: batched gives ceil(len/n) chunks, and every chunk but the last has
    exactly n elements. *)
Theorem batched_chunk_sizes {A} (l : list A) (n : Z)
    (chunks : list (list A)) :
  Batched.batched l n = Py.Ok chunks ->
  Z.of_nat (length l) <= Z.of_nat (length chunks) * n
    < Z.of_nat (length l) + n /\
  forall (i : nat) (chunk : list A),
    chunks !! i = Some chunk -> (S i < length chunks)%nat ->
    Z.of_nat (length chunk) = n.
Proof.
  unfold Batched.batched. destruct (n <? 1) eqn:Hn; [done |].
  intros [= <-]. split.
  - pose proof (batched_loop_count (length l) l (Z.to_nat n)
                  ltac:(lia) ltac:(done)) as Hc.
    nia.
  - intros i chunk Hi Hmore.
    rewrite (batched_loop_full (length l) l (Z.to_nat n) i chunk); try done;
      lia.
Qed.

Lemma batched_chunk_sizes_witness :
  Batched.batched [1; 2; 3; 4; 5] 2 = Py.Ok [[1; 2]; [3; 4]; [5]] /\
  5 <= Z.of_nat (length [[1; 2]; [3; 4]; [5]]) * 2 < 5 + 2.
Proof.
  split; [reflexivity |].
  apply (batched_chunk_sizes [1; 2; 3; 4; 5] 2 [[1; 2]; [3; 4]; [5]]).
  reflexivity.
Defined.

Lemma all_sleeps_batch (chunks : list (list Z)) :
  all_sleeps Batched.batch_task_sleeps chunks
  = replicate (length (concat chunks)) Batched.SLEEP_TIME.
Proof.
  unfold all_sleeps. induction chunks as [|chunk chunks IH]; [done |].
  simpl. rewrite IH, batch_task_sleeps_replicate, length_app.
  by rewrite replicate_add.
Qed.

Lemma all_sleeps_single (data : list Z) :
  all_sleeps Batched.single_task_sleeps data
  = replicate (length data) Batched.SLEEP_TIME.
Proof.
  unfold all_sleeps. induction data as [|x data IH]; [done |].
  simpl. by rewrite IH.
Qed.

(** X3: the two strategies do the same simulated work: for any data and
    batch size, the delays of the per-chunk tasks put together are the
    delays of the per-element tasks, one SLEEP_TIME per element. *)
Theorem strategies_same_total_work (data : list Z) (n : Z)
    (chunks : list (list Z)) :
  Batched.batched data n = Py.Ok chunks ->
  all_sleeps Batched.batch_task_sleeps chunks
  = all_sleeps Batched.single_task_sleeps data /\
  all_sleeps Batched.single_task_sleeps data
  = replicate (length data) Batched.SLEEP_TIME.
Proof.
  intros Hb. split; [| apply all_sleeps_single].
  rewrite all_sleeps_batch, all_sleeps_single.
  by rewrite (batched_concat _ _ _ Hb).
Qed.

Lemma strategies_same_total_work_witness :
  all_sleeps Batched.batch_task_sleeps [[1; 2]; [3; 4]; [5]]
  = all_sleeps Batched.single_task_sleeps [1; 2; 3; 4; 5].
Proof.
  apply (strategies_same_total_work [1; 2; 3; 4; 5] 2 [[1; 2]; [3; 4]; [5]]).
  reflexivity.
Defined.

Section executor_more.
Context {T : Type}.
Implicit Types (ex : Batched.executor T) (ws : list (Batched.wstate T)).
Implicit Types (acts : list (Batched.action T)).

Lemma do_action_workers ex ex' (a : Batched.action T) :
  Batched.do_action ex a = Some ex' ->
  (length (Batched.workers ex')
   <= length (Batched.workers ex) + length (Batched.submitted [a]))%nat.
Proof.
  destruct a as [t| |i]; simpl.
  - unfold Batched.submit, Batched.adjust_thread_count.
    destruct (Batched.shutdown_flag ex); [done |]. simpl.
    destruct (Batched.idle_semaphore ex); [destruct (_ <? _) |];
      intros [= <-]; simpl; rewrite ?length_app; simpl; lia.
  - intros [= <-]. simpl. lia.
  - unfold Batched.worker_step, Batched.got_item.
    repeat case_match; intros [= <-]; simpl; rewrite ?length_insert; lia.
Qed.

Lemma run_workers acts : forall ex ex',
  Batched.run acts ex = Some ex' ->
  (length (Batched.workers ex')
   <= length (Batched.workers ex) + length (Batched.submitted acts))%nat.
Proof.
  induction acts as [|a acts IH]; intros ex ex' Hrun; simpl in Hrun.
  - injection Hrun as <-. lia.
  - destruct (Batched.do_action ex a) as [ex1|] eqn:Ha; [| done].
    apply IH in Hrun. apply do_action_workers in Ha.
    rewrite submitted_cons, length_app. lia.
Qed.

Lemma do_action_sentinel ex ex' (a : Batched.action T) :
  sentinel_last ex -> Batched.do_action ex a = Some ex' -> sentinel_last ex'.
Proof.
  unfold sentinel_last. intros Hs. destruct a as [t| |i]; simpl.
  - unfold Batched.submit, Batched.adjust_thread_count.
    destruct (Batched.shutdown_flag ex); [done |]. simpl.
    destruct (Batched.idle_semaphore ex); [destruct (_ <? _) |];
      by intros [= <-].
  - intros [= <-] _. by eexists.
  - unfold Batched.worker_step.
    destruct (Batched.workers ex !! i) as [[|t|]|]; [| | done | done].
    + destruct (Batched.work_queue ex) as [|item q] eqn:Hq; [done |].
      intros [= <-]. unfold Batched.got_item.
      destruct item as [t|]; simpl.
      * intros Hshut. destruct (Hs Hshut) as [q' Hq'].
        destruct q' as [|x q']; [done |]. injection Hq' as _ ->. by eexists.
      * destruct (Batched.shutdown_flag ex); simpl; [by eexists | done].
    + intros [= <-]. simpl. apply Hs.
Qed.

Lemma run_sentinel acts : forall ex ex',
  sentinel_last ex -> Batched.run acts ex = Some ex' -> sentinel_last ex'.
Proof.
  induction acts as [|a acts IH]; intros ex ex' Hs Hrun; simpl in Hrun.
  - by injection Hrun as <-.
  - destruct (Batched.do_action ex a) as [ex1|] eqn:Ha; [| done].
    eapply IH; [| exact Hrun]. by eapply do_action_sentinel.
Qed.

Lemma alive_app ws1 ws2 : alive (ws1 ++ ws2) = alive ws1 ++ alive ws2.
Proof. apply List.filter_app. Qed.

Lemma worker_step_measure ex ex' i :
  Batched.shutdown_flag ex = true ->
  Batched.worker_step ex i = Some ex' ->
  Batched.shutdown_flag ex' = true /\
  (S (join_measure ex') = join_measure ex)%nat.
Proof.
  destruct ex as [n ws sem q fin sh]. simpl. intros ->.
  unfold Batched.worker_step; simpl.
  destruct (ws !! i) as [w|] eqn:Hi; [| done].
  destruct w as [|t|]; [| | done].
  - destruct q as [|item q]; [done |]. intros [= <-].
    unfold Batched.got_item; simpl. destruct item as [t|].
    + destruct (workers_split ws i _ (Batched.WRunning t) Hi)
        as (ws1 & ws2 & -> & ->).
      split; [done |]. unfold join_measure, pending, Batched.running. simpl.
      change (omap id (Some t :: q)) with (t :: omap id q).
      rewrite !omap_app, !alive_app, !length_app. csimpl. lia.
    + destruct (workers_split ws i _ Batched.WExited Hi)
        as (ws1 & ws2 & -> & ->).
      split; [done |]. unfold join_measure, pending, Batched.running. simpl.
      change (omap id (None :: q)) with (omap id q).
      rewrite !omap_app, !alive_app, !length_app. csimpl.
      rewrite ?app_nil_r, ?Nat.add_0_r. lia.
  - intros [= <-].
    destruct (workers_split ws i _ Batched.WWaiting Hi)
      as (ws1 & ws2 & -> & ->).
    split; [done |]. unfold join_measure, pending, Batched.running. simpl.
    rewrite !omap_app, !alive_app, !length_app. csimpl. lia.
Qed.

Lemma alive_nil_exited ws :
  alive ws = [] -> Forall (fun w => w = Batched.WExited) ws.
Proof.
  induction ws as [|w ws IH]; [by constructor |].
  destruct w; simpl; [done | done |]. intros Hws. constructor; auto.
Qed.

End executor_more.

(** X5: at every point of every schedule of a pool, each submitted task is
    in exactly one place: finished, being run by a worker, or waiting in
    the queue; none is lost and none is run twice. *)
Theorem pool_conserves_tasks {T} (n : Z) (acts : list (Batched.action T))
    (ex0 ex : Batched.executor T) :
  Batched.new_executor n = Py.Ok ex0 ->
  Batched.run acts ex0 = Some ex ->
  Batched.submitted acts
  ≡ₚ Batched.finished ex ++ Batched.running ex ++ pending ex.
Proof.
  intros Hnew Hrun.
  apply (inv_tasks _ _ (run_inv _ _ _ _ (pool_inv_new _ _ Hnew) Hrun)).
Qed.

Lemma pool_conserves_tasks_witness :
  Batched.submitted three_tasks_begin
  ≡ₚ Batched.finished three_tasks_middle
     ++ Batched.running three_tasks_middle ++ pending three_tasks_middle.
Proof.
  apply (pool_conserves_tasks 50 three_tasks_begin three_tasks_fresh
           three_tasks_middle); reflexivity.
Defined.

(** X6: worker threads are started on demand: a pool never has more
    threads than tasks were submitted to it, nor more than max_workers. *)
Theorem threads_started_on_demand {T} (n : Z) (acts : list (Batched.action T))
    (ex0 ex : Batched.executor T) :
  Batched.new_executor n = Py.Ok ex0 ->
  Batched.run acts ex0 = Some ex ->
  (length (Batched.workers ex) <= length (Batched.submitted acts))%nat /\
  Z.of_nat (length (Batched.workers ex)) <= n.
Proof.
  intros Hnew Hrun. split.
  - pose proof (run_workers _ _ _ Hrun) as Hw.
    unfold Batched.new_executor in Hnew. destruct (n <=? 0); [done |].
    injection Hnew as <-. simpl in Hw. lia.
  - pose proof (inv_bound _ _ (run_inv _ _ _ _ (pool_inv_new _ _ Hnew) Hrun))
      as Hb.
    rewrite (run_max_workers _ _ _ Hrun) in Hb.
    unfold Batched.new_executor in Hnew. destruct (n <=? 0); [done |].
    by injection Hnew as <-.
Qed.

Lemma threads_started_on_demand_witness :
  (length (Batched.workers three_tasks_middle)
   <= length (Batched.submitted three_tasks_begin))%nat.
Proof.
  apply (threads_started_on_demand 50 three_tasks_begin three_tasks_fresh
           three_tasks_middle); reflexivity.
Defined.

(** X7: the join cannot hang: once the pool is shut down, every worker
    thread that has not returned can take its next step, whatever the
    others do. *)
Theorem after_shutdown_workers_move {T} (n : Z)
    (acts : list (Batched.action T)) (ex0 ex : Batched.executor T)
    (i : nat) (w : Batched.wstate T) :
  Batched.new_executor n = Py.Ok ex0 ->
  Batched.run acts ex0 = Some ex ->
  Batched.shutdown_flag ex = true ->
  Batched.workers ex !! i = Some w ->
  w <> Batched.WExited ->
  exists ex', Batched.worker_step ex i = Some ex'.
Proof.
  intros Hnew Hrun Hshut Hi Hw.
  assert (Hs : sentinel_last ex).
  { eapply run_sentinel; [| exact Hrun].
    unfold Batched.new_executor in Hnew. destruct (n <=? 0); [done |].
    injection Hnew as <-. by intros [=]. }
  destruct (Hs Hshut) as [q Hq].
  unfold Batched.worker_step. rewrite Hi.
  destruct w as [|t|]; [| by eexists | done].
  rewrite Hq. destruct q; by eexists.
Qed.

(** X8: and the join returns: after shutdown every step of a worker brings
    the pool one closer to the end, so a schedule of worker steps is never
    longer than the measure of what was left to do, and when that measure
    is used up every thread has returned. *)
Theorem join_counts_down {T} (threads : list nat)
    (ex ex' : Batched.executor T) :
  Batched.shutdown_flag ex = true ->
  Batched.run (worker_steps threads) ex = Some ex' ->
  Batched.shutdown_flag ex' = true /\
  (length threads + join_measure ex' = join_measure ex)%nat /\
  (length threads = join_measure ex -> Batched.joined ex').
Proof.
  revert ex. induction threads as [|i threads IH]; intros ex Hshut Hrun;
    simpl in Hrun.
  - injection Hrun as <-. split_and!; [done | done |].
    simpl. intros Hm. split; [done |].
    apply alive_nil_exited. unfold join_measure in Hm.
    by apply nil_length_inv; lia.
  - destruct (Batched.worker_step ex i) as [ex1|] eqn:Hstep; [| done].
    destruct (worker_step_measure _ _ _ Hshut Hstep) as [Hshut1 Hm1].
    destruct (IH ex1 Hshut1 Hrun) as (Hshut' & Hm & Hj).
    split_and!; [done | simpl; lia |].
    simpl. intros Hlen. apply Hj. lia.
Qed.

Lemma join_counts_down_witness :
  Batched.joined three_tasks_joined.
Proof.
  apply (join_counts_down [0; 1; 2]%nat
           (Batched.mk_executor 50
              [Batched.WWaiting; Batched.WWaiting; Batched.WWaiting]
              3%nat [None] [1; 1; 1] true)
           three_tasks_joined); reflexivity.
Defined.

Lemma after_shutdown_workers_move_witness :
  exists ex', Batched.worker_step three_tasks_shut 1 = Some ex'.
Proof.
  apply (after_shutdown_workers_move 50
           (three_tasks_begin ++ [Batched.MainShutdown])
           three_tasks_fresh three_tasks_shut 1 Batched.WWaiting);
    (reflexivity || discriminate).
Defined.

(* ===================================================================== *)
(** * Cell 1: further properties                                         *)
(* ===================================================================== *)

Section shelve_more.
Context {V bytes : Type} `{Shelve.Pickle V bytes}.
Implicit Types (disk : gmap string (gmap string bytes)).

Lemma entry_insert disk f contents f' k :
  entry (<[f := contents]> disk) f' k
  = if decide (f = f') then contents !! k else entry disk f' k.
Proof. unfold entry. rewrite lookup_insert. by case_decide. Qed.

Lemma entry_store (v : V) disk f k :
  entry (snd (Shelve.store_response v disk)) f k
  = match Shelve.dumps v with
    | Py.Ok b =>
        if decide (f = "myTest.db" /\ k = "example_response") then Some b
        else entry disk f k
    | Py.Raise _ => entry disk f k
    end.
Proof.
  unfold Shelve.store_response, Shelve.with_open, Shelve.shelve_open,
    Shelve.setitem, Shelve.close. simpl.
  destruct (Shelve.dumps v) as [b|e]; simpl;
    rewrite insert_insert_eq, entry_insert.
  - case_decide as Hf.
    + subst f. rewrite lookup_insert. fold (entry disk "myTest.db" k).
      repeat case_decide; intuition congruence.
    + case_decide; intuition congruence.
  - case_decide as Hf; [by subst f | done].
Qed.

Lemma fst_load disk :
  fst (Shelve.load_response disk)
  = match entry disk "myTest.db" "example_response" with
    | Some b => Shelve.loads b
    | None => Py.Raise (Py.KeyError (Py.BytesKey "example_response"))
    end.
Proof.
  unfold Shelve.load_response, Shelve.with_open, Shelve.shelve_open,
    Shelve.getitem, entry. simpl.
  by destruct (default ∅ (disk !! "myTest.db") !! "example_response").
Qed.

Lemma entry_load disk f k :
  entry (snd (Shelve.load_response disk)) f k = entry disk f k.
Proof.
  unfold Shelve.load_response, Shelve.with_open, Shelve.shelve_open,
    Shelve.getitem, Shelve.close. simpl.
  destruct (default ∅ (disk !! "myTest.db") !! "example_response"); simpl;
    rewrite insert_insert_eq, entry_insert; case_decide; by subst.
Qed.

End shelve_more.

(** X9: reading "example_response" from a shelf that does not hold it (a
    new file, or a file with other keys only) raises the KeyError of the
    dbm dict, which reports the encoded key: KeyError(b'example_response'). *)
Theorem load_missing_key {V bytes} `{Shelve.Pickle V bytes}
    (disk : gmap string (gmap string bytes)) :
  entry disk "myTest.db" "example_response" = None ->
  fst (Shelve.load_response (V:=V) disk)
  = Py.Raise (Py.KeyError (Py.BytesKey "example_response")).
Proof. intros Hnone. by rewrite fst_load, Hnone. Qed.

Lemma load_missing_key_witness :
  fst (@Shelve.load_response string string text_pickle ∅)
  = Py.Raise (Py.KeyError (Py.BytesKey "example_response")).
Proof.
  apply (@load_missing_key string string text_pickle ∅). reflexivity.
Defined.

(** X10: reading changes nothing that is stored, and reading again gives the
    same outcome. *)
Theorem load_is_read_only {V bytes} `{Shelve.Pickle V bytes}
    (disk : gmap string (gmap string bytes)) :
  (forall f k : string,
     entry (snd (Shelve.load_response (V:=V) disk)) f k = entry disk f k) /\
  fst (Shelve.load_response (V:=V) (snd (Shelve.load_response (V:=V) disk)))
  = fst (Shelve.load_response (V:=V) disk).
Proof.
  split; [apply entry_load |]. by rewrite !fst_load, entry_load.
Qed.

(** X11: the write touches one entry only: every other key of myTest.db and
    every other file hold after it what they held before, whether the
    write went through or raised. *)
Theorem store_keeps_other_entries {V bytes} `{Shelve.Pickle V bytes}
    (response : V) (disk : gmap string (gmap string bytes)) (f k : string) :
  f <> "myTest.db" \/ k <> "example_response" ->
  entry (snd (Shelve.store_response response disk)) f k = entry disk f k.
Proof.
  intros Hother. rewrite entry_store.
  destruct (Shelve.dumps response); [| done].
  case_decide; intuition congruence.
Qed.

Lemma store_keeps_other_entries_witness :
  entry (snd (@Shelve.store_response string string text_pickle "<html>"
                {["myTest.db" := {["other" := "kept"]}]}))
    "myTest.db" "other"
  = Some "kept".
Proof.
  rewrite (@store_keeps_other_entries string string text_pickle "<html>"
             {["myTest.db" := {["other" := "kept"]}]} "myTest.db" "other").
  - reflexivity.
  - right. discriminate.
Defined.

(** X12: a value pickle refuses is not stored: the write raises pickle's
    exception, the cell ends with it before the read, and everything
    stored, the earlier value of the key included, is as it was. *)
Theorem store_failure_keeps_disk {V bytes} `{Shelve.Pickle V bytes}
    (response : V) (e : Py.exn) (disk : gmap string (gmap string bytes)) :
  Shelve.dumps response = Py.Raise e ->
  fst (Shelve.store_response response disk) = Py.Raise e /\
  fst (Shelve.cell response disk) = Py.Raise e /\
  forall f k : string,
    entry (snd (Shelve.store_response response disk)) f k = entry disk f k.
Proof.
  intros He.
  assert (Hstore : fst (Shelve.store_response response disk) = Py.Raise e).
  { unfold Shelve.store_response, Shelve.with_open, Shelve.shelve_open,
      Shelve.setitem. simpl. by rewrite He. }
  split_and!; [done | |].
  - unfold Shelve.cell.
    destruct (Shelve.store_response response disk) as [[[]|e'] disk1];
      simpl in *; congruence.
  - intros f k. by rewrite entry_store, He.
Qed.

Lemma store_failure_keeps_disk_witness :
  fst (@Shelve.cell string string nonempty_text_pickle ""
         {["myTest.db" := {["example_response" := "old"]}]})
  = Py.Raise (Py.PicklingError "empty text").
Proof.
  apply (@store_failure_keeps_disk string string nonempty_text_pickle ""
           (Py.PicklingError "empty text")
           {["myTest.db" := {["example_response" := "old"]}]}).
  reflexivity.
Defined.

(** X13: the last write wins: after two writes that went through, the read
    gives the second value, whatever the shelf held before. *)
Theorem store_twice_last_wins {V bytes} `{Shelve.Pickle V bytes}
    `{!Shelve.PickleInverse V bytes} (first second : V)
    (disk : gmap string (gmap string bytes)) :
  fst (Shelve.store_response first disk) = Py.Ok tt ->
  fst (Shelve.store_response second
         (snd (Shelve.store_response first disk))) = Py.Ok tt ->
  fst (Shelve.load_response
         (snd (Shelve.store_response second
                 (snd (Shelve.store_response first disk)))))
  = Py.Ok second.
Proof.
  intros _ Hsecond. rewrite fst_load, entry_store.
  destruct (Shelve.dumps second) as [b|e] eqn:Hb.
  - rewrite decide_True by done. by apply Shelve.loads_dumps.
  - unfold Shelve.store_response, Shelve.with_open, Shelve.shelve_open,
      Shelve.setitem in Hsecond. simpl in Hsecond.
    rewrite Hb in Hsecond. done.
Qed.

Lemma store_twice_last_wins_witness :
  fst (@Shelve.load_response string string text_pickle
         (snd (@Shelve.store_response string string text_pickle "new"
                 (snd (@Shelve.store_response string string text_pickle
                         "old" ∅)))))
  = Py.Ok "new".
Proof.
  apply (@store_twice_last_wins string string text_pickle
           text_pickle_inverse "old" "new" ∅); reflexivity.
Defined.

(* ===================================================================== *)
(** * Cell 2: further properties                                         *)
(* ===================================================================== *)

Lemma bound_url_lookup (kw : gmap string Py.value) (name : string) :
  (kw ∪ {["url" := Py.VStr Partial.graphql_url]}) !! name
  = match kw !! name with
    | Some v => Some v
    | None => if decide (name = "url") then Some (Py.VStr Partial.graphql_url)
              else None
    end.
Proof.
  rewrite lookup_union. destruct (kw !! name) as [v|] eqn:Hk.
  - by destruct ({["url" := Py.VStr Partial.graphql_url]} !! name).
  - case_decide as Hn.
    + subst name. by rewrite lookup_singleton_eq.
    + by rewrite lookup_singleton_ne.
Qed.

Lemma bound_url_rest (kw : gmap string Py.value) :
  delete "url" (delete "data" (delete "json"
    (kw ∪ {["url" := Py.VStr Partial.graphql_url]})))
  = delete "url" (delete "data" (delete "json" kw)).
Proof.
  apply map_eq. intros name. rewrite !lookup_delete.
  repeat case_decide; try done.
  rewrite bound_url_lookup. destruct (kw !! name); [done |].
  by rewrite decide_False by done.
Qed.

(** X14: what [post] does with keyword arguments: one call of session.post,
    to the url given at the call if there is one and to graphql_url
    otherwise (a keyword of the call wins over the bound one), with the
    data and json of the call and its other keywords passed on. *)
Theorem post_keywords (server : Partial.request -> Py.result Py.value)
    (kw : gmap string Py.value) (calls : list Partial.request) :
  let rq := Partial.mk_request "POST"
              (default (Py.VStr Partial.graphql_url) (kw !! "url"))
              (kw !! "data") (kw !! "json")
              (delete "url" (delete "data" (delete "json" kw))) in
  Partial.call (Partial.post server) [] kw calls = (server rq, calls ++ [rq]).
Proof.
  unfold Partial.call, Partial.post, Partial.partial, Partial.session_post,
    Partial.bind_param. simpl.
  rewrite !bound_url_lookup, bound_url_rest. simpl.
  by destruct (kw !! "url"), (kw !! "data"), (kw !! "json").
Qed.

(** X15: [post] takes no positional argument: the first one would be the
    url, which partial has bound already, so the call raises TypeError and
    nothing is sent. *)
Theorem post_positional_rejected
    (server : Partial.request -> Py.result Py.value)
    (a : Py.value) (rest : list Py.value) (kw : gmap string Py.value)
    (calls : list Partial.request) :
  exists msg : string,
    Partial.call (Partial.post server) (a :: rest) kw calls
    = (Py.Raise (Py.TypeError msg), calls).
Proof.
  unfold Partial.call, Partial.post, Partial.partial, Partial.session_post,
    Partial.bind_param. simpl.
  destruct (3 <? S (length rest))%nat; [by eexists |].
  rewrite bound_url_lookup.
  destruct (kw !! "url"); simpl; by eexists.
Qed.

(** X16: when the first call of the cell fails, the cell ends with its
    exception and the second call is never made. *)
Theorem cell_stops_at_first_failure
    (server : Partial.request -> Py.result Py.value) (e : Py.exn)
    (calls : list Partial.request) :
  server (post_request (Partial.query Partial.body_continents)) = Py.Raise e ->
  Partial.cell server calls
  = (Py.Raise e,
     calls ++ [post_request (Partial.query Partial.body_continents)]).
Proof.
  intros He. unfold Partial.cell. by rewrite post_json_call, He.
Qed.

Lemma cell_stops_at_first_failure_witness :
  Partial.cell server_down []
  = (Py.Raise (Py.ConnectionError "connection refused"),
     [post_request (Partial.query Partial.body_continents)]).
Proof.
  apply (cell_stops_at_first_failure server_down
           (Py.ConnectionError "connection refused") []).
  reflexivity.
Defined.

(* ===================================================================== *)
(** * Cell 5: further properties                                         *)
(* ===================================================================== *)

(** X17: the whole cell, for every behaviour of the database: when the
    query succeeds its rows are printed and the connection commits; when
    it raises, the exception leaves both with blocks, nothing is printed
    and the connection rolls back; either way the cursor is closed once
    and holds no rows. *)
Theorem closing_cell_outcome
    (engine : string -> Py.result (list Py.value)) :
  Closing.cell engine Closing.fresh
  = match engine "SELECT 'HELLO WORLD'" with
    | Py.Ok rows =>
        (Py.Ok tt,
         (Closing.mk_db [Closing.Commit] [] 1, [Py.Printed (Py.VList rows)]))
    | Py.Raise e =>
        (Py.Raise e, (Closing.mk_db [Closing.Rollback] [] 1, []))
    end.
Proof.
  unfold Closing.cell, Closing.with_connection, Closing.with_closing,
    Closing.query_block, Closing.execute, Closing.fetchall,
    Closing.cursor_close, Py.bind, Py.on_state, Py.print, Closing.fresh.
  simpl. by destruct (engine "SELECT 'HELLO WORLD'").
Qed.

(* ===================================================================== *)
(** * Cell 4: further properties                                         *)
(* ===================================================================== *)

Lemma call_cache_dom (v : Py.value) (g : SingleDispatch.generic) :
  dom (SingleDispatch.dispatch_cache (snd (SingleDispatch.call v g)))
  = ({[SingleDispatch.type_of v]}
       ∪ dom (SingleDispatch.dispatch_cache g) : gset SingleDispatch.pytype).
Proof.
  unfold SingleDispatch.call, SingleDispatch.dispatch.
  destruct (SingleDispatch.dispatch_cache g !! SingleDispatch.type_of v)
    as [impl|] eqn:Hc.
  - assert (SingleDispatch.type_of v
              ∈ dom (SingleDispatch.dispatch_cache g)) as Hin.
    { apply elem_of_dom. by eexists. }
    destruct impl; simpl; symmetry; apply subseteq_union_1_L;
      by apply singleton_subseteq_l.
  - repeat case_match; simplify_eq; simpl; by rewrite dom_insert_L.
Qed.

(** X18: process raises exactly for the arguments that are neither int nor
    str, and then always NotImplementedError("Unsupported type"); for the
    others it returns an int (for an int or a bool) or a str (for a
    str). *)
Theorem process_outcomes `{SingleDispatch.StrOps}
    (earlier : list Py.value) (v : Py.value) :
  match fst (SingleDispatch.call v (process_after earlier)) with
  | Py.Ok r =>
      (SingleDispatch.isinstance v SingleDispatch.TInt = true /\
       SingleDispatch.type_of r = SingleDispatch.TInt) \/
      (SingleDispatch.isinstance v SingleDispatch.TStr = true /\
       SingleDispatch.type_of r = SingleDispatch.TStr)
  | Py.Raise e =>
      e = Py.NotImplementedError "Unsupported type" /\
      SingleDispatch.isinstance v SingleDispatch.TInt = false /\
      SingleDispatch.isinstance v SingleDispatch.TStr = false
  end.
Proof.
  rewrite call_process_after.
  destruct v as [|b|n|s|items|items|items]; simpl; try done.
  - by left.
  - by left.
  - by right.
Qed.

(** X19: the try statement of the cell lets no exception of process out, for
    any argument: for an int or a str nothing is caught or printed, for
    anything else the error is caught and its message printed. *)
Theorem try_process_never_raises `{SingleDispatch.StrOps}
    (earlier : list Py.value) (v : Py.value) (tr : list Py.event) :
  SingleDispatch.try_process v (process_after earlier, tr)
  = (Py.Ok tt,
     (process_after (earlier ++ [v]),
      if SingleDispatch.isinstance v SingleDispatch.TInt
         || SingleDispatch.isinstance v SingleDispatch.TStr
      then tr
      else tr ++ [Py.Caught (Py.NotImplementedError "Unsupported type");
                  Py.Printed (Py.VStr
                    "NotImplementedError error caught: Unsupported type")])).
Proof.
  unfold SingleDispatch.try_process, Py.try_except, Py.bind,
    SingleDispatch.call_process, Py.on_state, Py.ret, Py.print. simpl.
  rewrite process_after_snoc.
  pose proof (call_process_after earlier v) as Hcall.
  destruct (SingleDispatch.call v (process_after earlier)) as [r g].
  simpl in *. subst r.
  destruct v as [|b|n|s|items|items|items]; simpl; try done;
    by rewrite <- app_assoc.
Qed.

(** X20: the dispatch cache holds exactly the classes process has been
    called with. *)
Theorem dispatch_cache_classes `{SingleDispatch.StrOps}
    (earlier : list Py.value) :
  dom (SingleDispatch.dispatch_cache (process_after earlier))
  = (list_to_set (SingleDispatch.type_of <$> earlier)
       : gset SingleDispatch.pytype).
Proof.
  induction earlier as [|v earlier IH] using rev_ind.
  - done.
  - rewrite process_after_snoc, call_cache_dom, IH, fmap_app,
      list_to_set_app_L.
    simpl. rewrite (right_id_L ∅ (∪)). apply (comm_L (∪)).
Qed.

(** X21: a registration takes effect at once, whatever was called before:
    register clears the dispatch cache, so the next call with an argument
    of the registered class runs the new handler, also when that class
    had been dispatched, to the fallback or to an older handler. *)
Theorem register_takes_effect (g : SingleDispatch.generic)
    (f : Py.value -> Py.result Py.value) (v : Py.value) :
  fst (SingleDispatch.call v
         (SingleDispatch.register g (SingleDispatch.type_of v) f))
  = f v.
Proof.
  unfold SingleDispatch.call, SingleDispatch.dispatch,
    SingleDispatch.register. simpl.
  by rewrite lookup_empty, lookup_insert_eq.
Qed.

(** X22: registrations for different classes commute: the two register
    blocks of the cell can be swapped without changing process. *)
Theorem registration_order (g : SingleDispatch.generic)
    (cls1 cls2 : SingleDispatch.pytype)
    (f1 f2 : Py.value -> Py.result Py.value) :
  cls1 <> cls2 ->
  SingleDispatch.register (SingleDispatch.register g cls1 f1) cls2 f2
  = SingleDispatch.register (SingleDispatch.register g cls2 f2) cls1 f1.
Proof.
  intros Hne. unfold SingleDispatch.register. simpl. f_equal.
  by apply insert_insert_ne.
Qed.

Lemma registration_order_witness :
  SingleDispatch.register
    (SingleDispatch.register
       (SingleDispatch.singledispatch SingleDispatch.process_default)
       SingleDispatch.TStr (@SingleDispatch.process_str SingleDispatch.ascii_ops))
    SingleDispatch.TInt SingleDispatch.process_int
  = @SingleDispatch.process SingleDispatch.ascii_ops.
Proof.
  apply (registration_order
           (SingleDispatch.singledispatch SingleDispatch.process_default)
           SingleDispatch.TStr SingleDispatch.TInt).
  discriminate.
Defined.
